(** * The hero banner generator, [static/images/generate_hero.py]

    A shallow embedding of the script and the properties its description
    states about it.  The script composes one 1000x420 RGB raster: it pastes
    a resized chart on the right, runs a per-pixel blend over the columns
    left of the chart, draws five text strings and one filled rectangle, and
    saves the raster.

    Python integers are [Z]; Python floats are the kernel's binary64 floats,
    so [x / sensor_x], [* 0.3] and [int(...)] round exactly as CPython does.
    An exception is a value of [result]; statements that run in sequence are
    chained with the monad's bind.  The raster is a row-major list of RGB
    triples. *)

From Stdlib Require Import ZArith Floats Uint63 Lia String.
From stdpp Require Import base option list.

Local Open Scope Z_scope.

(** ** Exceptions *)

Inductive exn : Set :=
  | ZeroDivisionError
  | ValueError
  | OverflowError
  | IndexError
  | NameError
  | OSError.

Inductive result (A : Type) : Type :=
  | Ok (a : A)
  | Raise (e : exn).

Arguments Ok {A} a.
Arguments Raise {A} e.

#[global] Instance result_ret : MRet result := @Ok.
#[global] Instance result_bind : MBind result := fun A B k r =>
  match r with
  | Ok a => k a
  | Raise e => Raise e
  end.

(** [for a in l: s = body(a, s)], stopping at the first exception. *)
Fixpoint for_in {A S} (l : list A) (body : A -> S -> result S) (s : S) : result S :=
  match l with
  | [] => Ok s
  | a :: l' => s' ← body a s; for_in l' body s'
  end.

(** Python's [range(n)]. *)
Definition range (n : Z) : list Z := seqZ 0 n.

(** ** Python numbers *)

Module Py.

(** An [int] used where a [float] is expected.  The conversion is exact
    for [0 <= z < 2^53]; every integer the script converts is an image
    coordinate or an image dimension, far below that. *)
Definition float_of_int (z : Z) : float := of_uint63 (Uint63.of_Z z).

(** [a / b] on two [int]s: true division, which for operands below [2^53]
    is the binary64 quotient of the two converted operands; dividing by
    zero raises. *)
Definition truediv (a b : Z) : result float :=
  if b =? 0 then Raise ZeroDivisionError
  else Ok (float_of_int a / float_of_int b)%float.

(** [int(f)] truncates toward zero; it raises on infinities and NaN. *)
Definition trunc_SF (f : spec_float) : result Z :=
  match f with
  | S754_zero _ => Ok 0
  | S754_finite s m e =>
      let a := match e with
               | Z0 => Z.pos m
               | Zpos _ => Z.pos m * 2 ^ e
               | Zneg _ => Z.pos m / 2 ^ (- e)
               end in
      Ok (if s then - a else a)
  | S754_infinity _ => Raise OverflowError
  | S754_nan => Raise ValueError
  end.

Definition int (f : float) : result Z := trunc_SF (Prim2SF f).

End Py.

(** ** The imaging library, as far as the script uses it *)

Definition color : Type := Z * Z * Z.

(** An image: its mode string, its size, the colour of each pixel as an RGB
    triple in row-major order, and its alpha band (used only by a paste that
    is given the image as a mask). *)
Record image : Type := Image {
  mode : string;
  im_width : Z;
  im_height : Z;
  im_rgb : list color;
  im_alpha : list Z
}.

Definition wf_image (img : image) : Prop :=
  0 <= im_width img /\ 0 <= im_height img /\
  length (im_rgb img) = Z.to_nat (im_width img * im_height img).

Definition in_bounds (img : image) (x y : Z) : bool :=
  (0 <=? x) && (x <? im_width img) && (0 <=? y) && (y <? im_height img).

Definition offset (img : image) (x y : Z) : nat := Z.to_nat (y * im_width img + x).

(** [Image.new('RGB', (w, h), c)] *)
Definition Image_new (w h : Z) (c : color) : image :=
  {| mode := "RGB"; im_width := w; im_height := h;
     im_rgb := replicate (Z.to_nat (w * h)) c; im_alpha := [] |}.

(** [img.getpixel((x, y))]; the script only passes coordinates drawn from
    [range], for which a position outside the image is an [IndexError].
    The library counts a negative coordinate from the far side; no call of
    the script passes one, and the model answers [IndexError] there too. *)
Definition getpixel (img : image) (xy : Z * Z) : result color :=
  let '(x, y) := xy in
  if in_bounds img x y then
    match im_rgb img !! offset img x y with
    | Some c => Ok c
    | None => Raise IndexError
    end
  else Raise IndexError.

(** [img.putpixel((x, y), c)] *)
Definition putpixel (img : image) (xy : Z * Z) (c : color) : result image :=
  let '(x, y) := xy in
  if in_bounds img x y then
    Ok {| mode := mode img; im_width := im_width img; im_height := im_height img;
          im_rgb := <[offset img x y := c]> (im_rgb img); im_alpha := im_alpha img |}
  else Raise IndexError.

(** The library's 8-bit blend, used by a masked paste on each channel:
    [mask = 0] keeps the destination, [mask = 255] copies the source. *)
Definition DIV255 (a : Z) : Z :=
  let tmp := a + 128 in Z.shiftr (Z.shiftr tmp 8 + tmp) 8.

Definition BLEND (mask in1 in2 : Z) : Z := DIV255 (in1 * (255 - mask) + in2 * mask).

Definition blend_color (mask : Z) (dst src : color) : color :=
  let '(r1, g1, b1) := dst in
  let '(r2, g2, b2) := src in
  (BLEND mask r1 r2, BLEND mask g1 g2, BLEND mask b1 b2).

(** The pixel of [im] at its own coordinates [(i, j)], if there is one. *)
Definition source_at {A} (im : image) (band : list A) (i j : Z) : option A :=
  if in_bounds im i j then band !! offset im i j else None.

(** What a paste does to the destination pixel [old] lying under the
    source position [(i, j)]: nothing outside the source; without a mask
    the source colour replaces it; with a mask the two are blended by the
    mask's alpha at that position. *)
Definition paste_pixel (im : image) (mask : option image) (i j : Z) (old : color) : color :=
  match source_at im (im_rgb im) i j with
  | None => old
  | Some c =>
      match mask with
      | None => c
      | Some m =>
          match source_at m (im_alpha m) i j with
          | Some a => blend_color a old c
          | None => old
          end
      end
  end.

(** [dst.paste(im, (x0, y0), mask)]: the box is the upper left corner, the
    region has the size of [im] and is clipped to [dst].  The source is
    taken as already converted to the mode of [dst]; a source whose mode
    the library cannot convert is outside the model. *)
Definition paste (dst im : image) (box : Z * Z) (mask : option image) : image :=
  let '(x0, y0) := box in
  {| mode := mode dst; im_width := im_width dst; im_height := im_height dst;
     im_rgb :=
       imap (fun k old =>
               let x := Z.of_nat k `mod` im_width dst in
               let y := Z.of_nat k `div` im_width dst in
               paste_pixel im mask (x - x0) (y - y0) old) (im_rgb dst);
     im_alpha := im_alpha dst |}.

(** [draw.rectangle([(x0, y0), (x1, y1)], fill=c)]: both corners belong to
    the rectangle. *)
Definition in_rectangle (xy : (Z * Z) * (Z * Z)) (x y : Z) : bool :=
  let '((x0, y0), (x1, y1)) := xy in
  (x0 <=? x) && (x <=? x1) && (y0 <=? y) && (y <=? y1).

Definition rectangle (img : image) (xy : (Z * Z) * (Z * Z)) (fill : color) : image :=
  {| mode := mode img; im_width := im_width img; im_height := im_height img;
     im_rgb :=
       imap (fun k old =>
               let x := Z.of_nat k `mod` im_width img in
               let y := Z.of_nat k `div` im_width img in
               if in_rectangle xy x y then fill else old)
            (im_rgb img);
     im_alpha := im_alpha img |}.

(** ** The script's constants *)

Definition width : Z := 1000.
Definition height : Z := 420.
Definition bg_color : color := (15, 23, 42).

Definition sensor_width : Z := 500.
Definition sensor_x : Z := width - sensor_width - 20.

Definition text_color : color := (226, 232, 240).
Definition accent_color : color := (147, 197, 253).
Definition warning_color : color := (248, 113, 113).

Definition title_y : Z := 80.
Definition subtitle_y : Z := title_y + 130.
Definition badge_y : Z := height - 60.
Definition line_y : Z := subtitle_y - 20.

(** The corners of the decorative line. *)
Definition accent_rectangle : (Z * Z) * (Z * Z) := ((40, line_y), (280, line_y + 3)).

(** ** The script's steps *)

(** [sensor_height = int(sensor_img.height * (sensor_width / sensor_img.width))] *)
Definition sensor_height (w h : Z) : result Z :=
  ratio ← Py.truediv sensor_width w;
  Py.int (Py.float_of_int h * ratio)%float.

(** [sensor_y = (height - sensor_height) // 2] *)
Definition sensor_y (sh : Z) : Z := (height - sh) `div` 2.

(** The paste of the resized chart, with the script's choice of mask. *)
Definition paste_sensor (img sensor_img : image) (sh : Z) : image :=
  paste img sensor_img (sensor_x, sensor_y sh)
        (if String.eqb (mode sensor_img) "RGBA" then Some sensor_img else None).

(** [alpha = int(255 * (1 - (x / sensor_x) * 0.3))] *)
Definition alpha (x : Z) : result Z :=
  q ← Py.truediv x sensor_x;
  Py.int (255 * (1 - q * 0x1.3333333333333p-2 (* 0.3 *)))%float.

(** [current + (bg - current) * alpha // 255] for one channel; [*] and [//]
    associate to the left, and [//] rounds toward minus infinity as [Z.div]
    does for a positive divisor. *)
Definition shift_channel (current bg a : Z) : Z :=
  current + ((bg - current) * a) `div` 255.

(** The triple written back by [putpixel] in the overlay loop. *)
Definition overlay_pixel (a : Z) (current : color) : color :=
  let '(c0, c1, c2) := current in
  let '(b0, b1, b2) := bg_color in
  (Z.min 255 (shift_channel c0 b0 a),
   Z.min 255 (shift_channel c1 b1 a),
   Z.min 255 (shift_channel c2 b2 a)).

(** The inner loop, [for y in range(height)], for one column. *)
Definition overlay_column (x a : Z) (img : image) : result image :=
  for_in (range height)
         (fun y img => current ← getpixel img (x, y); putpixel img (x, y) (overlay_pixel a current))
         img.

(** The outer loop, [for x in range(sensor_x)]. *)
Definition gradient_overlay (img : image) : result image :=
  for_in (range sensor_x) (fun x img => a ← alpha x; overlay_column x a img) img.

(** The three font variables; [None] is a name not bound yet. *)
Record font_vars (font : Type) : Type := FontVars {
  title_font : option font;
  subtitle_font : option font;
  small_font : option font
}.

Arguments FontVars {font} _ _ _.
Arguments title_font {font} _.
Arguments subtitle_font {font} _.
Arguments small_font {font} _.

(** Reading a variable. *)
Definition read_var {A} (v : option A) : result A :=
  match v with
  | Some a => Ok a
  | None => Raise NameError
  end.

Section Script.

(** What the script takes from its environment: the font type with the
    built-in default font, the text rasteriser, and the resampling
    resize.  [ImageFont.truetype], whose outcome depends on the machine,
    is an argument of the functions below. *)
Variable font : Type.
Variable load_default : font.
Variable draw_text : image -> Z * Z -> string -> color -> font -> image.
Variable resize : image -> Z * Z -> result image.

(** The body of the [try]: three assignments in sequence.  The variables
    assigned before a failing load stay assigned. *)
Definition try_fonts (truetype : string -> Z -> result font) (v : font_vars font)
  : font_vars font * option exn :=
  match truetype "arial.ttf"%string 48 with
  | Raise e => (v, Some e)
  | Ok f1 =>
      let v := FontVars (Some f1) (subtitle_font v) (small_font v) in
      match truetype "arial.ttf"%string 28 with
      | Raise e => (v, Some e)
      | Ok f2 =>
          let v := FontVars (title_font v) (Some f2) (small_font v) in
          match truetype "arial.ttf"%string 20 with
          | Raise e => (v, Some e)
          | Ok f3 => (FontVars (title_font v) (subtitle_font v) (Some f3), None)
          end
      end
  end.

(** The body of the [except]. *)
Definition except_fonts (v : font_vars font) : font_vars font :=
  let v := FontVars (Some load_default) (subtitle_font v) (small_font v) in
  let v := FontVars (title_font v) (Some load_default) (small_font v) in
  FontVars (title_font v) (subtitle_font v) (Some load_default).

(** The whole [try ... except:] statement: the new state, and the
    exception that leaves the statement, if any.  The [except] is bare, so
    it handles whatever the body raised. *)
Definition load_fonts (truetype : string -> Z -> result font) (v : font_vars font)
  : font_vars font * option exn :=
  match try_fonts truetype v with
  | (v', None) => (v', None)
  | (v', Some _) => (except_fonts v', None)
  end.

(** The five [draw.text] calls and the [draw.rectangle] call. *)
Definition draw_labels (img : image) (v : font_vars font) : result image :=
  f ← read_var (title_font v);
  let img := draw_text img (40, title_y) "Liskov Substitution"%string text_color f in
  f ← read_var (title_font v);
  let img := draw_text img (40, title_y + 55) "Principle"%string text_color f in
  f ← read_var (subtitle_font v);
  let img := draw_text img (40, subtitle_y) "When Your Cheap Sensor"%string accent_color f in
  f ← read_var (subtitle_font v);
  let img := draw_text img (40, subtitle_y + 35) "Breaks Everything"%string warning_color f in
  f ← read_var (small_font v);
  let img := draw_text img (40, badge_y) "SOLID PRINCIPLES"%string (100, 116, 139) f in
  Ok (rectangle img accent_rectangle accent_color).

(** The script, from [Image.new] to the raster handed to [img.save].  Its
    inputs are the opened chart and the behaviour of the font loader. *)
Definition generate_hero (truetype : string -> Z -> result font) (sensor_img : image)
  : result image :=
  let img := Image_new width height bg_color in
  sh ← sensor_height (im_width sensor_img) (im_height sensor_img);
  sensor_img ← resize sensor_img (sensor_width, sh);
  let img := paste_sensor img sensor_img sh in
  img ← gradient_overlay img;
  match load_fonts truetype (FontVars None None None) with
  | (_, Some e) => Raise e
  | (v, None) => draw_labels img v
  end.

End Script.

Arguments try_fonts {font} truetype v.
Arguments except_fonts {font} load_default v.
Arguments load_fonts {font} load_default truetype v.
Arguments draw_labels {font} draw_text img v.
Arguments generate_hero {font} load_default draw_text resize truetype sensor_img.

(** ** Runs of the script

    The results of [resize] and of [draw.text] come from the imaging
    library, which the script cannot see into.  [resizes im size r] says
    that [im.resize(size)] may end in [r], an image or an exception;
    [draws img xy s c f out] says that [draw.text] on [img] with these
    arguments may leave [out].  Nothing makes such a relation single
    valued.  A run is the script executed with one way the library answers
    its calls. *)

Section Runs.

Variable font : Type.
Variable load_default : font.
Variable draws : image -> Z * Z -> string -> color -> font -> image -> Prop.
Variable resizes : image -> Z * Z -> result image -> Prop.

Definition run (truetype : string -> Z -> result font) (sensor_img : image)
    (out : result image) : Prop :=
  exists (draw_text : image -> Z * Z -> string -> color -> font -> image)
         (resize : image -> Z * Z -> result image),
    (forall img xy s c f, draws img xy s c f (draw_text img xy s c f)) /\
    (forall im size, resizes im size (resize im size)) /\
    generate_hero load_default draw_text resize truetype sensor_img = out.

End Runs.

Arguments run {font} load_default draws resizes truetype sensor_img out.

(** ** Vocabulary of the properties *)

(** The canvas as [Image.new] leaves it. *)
Definition blank_canvas : image := Image_new width height bg_color.

Definition byte (z : Z) : Prop := 0 <= z <= 255.

Definition byte_color (c : color) : Prop :=
  let '(r, g, b) := c in byte r /\ byte g /\ byte b.

(** [floor(255 * (1 - 0.3 * x / sensor_x))], computed on integers. *)
Definition alpha_floor (x : Z) : Z := (255 * (10 * sensor_x - 3 * x)) `div` (10 * sensor_x).

Definition alpha_agrees (x : Z) : bool :=
  match alpha x with
  | Ok a => a =? alpha_floor x
  | Raise _ => false
  end.

(** Python's [round] of the fraction [n / d], [d > 0]: to the nearest
    integer, a tie going to the even one. *)
Definition round_ratio (n d : Z) : Z :=
  let q := n `div` d in
  let r := n `mod` d in
  if 2 * r <? d then q
  else if d <? 2 * r then q + 1
  else if Z.even q then q else q + 1.

(** The height the description gives the resized chart:
    [round(h * (500 / w))]. *)
Definition nearest_height (w h : Z) : Z := round_ratio (h * sensor_width) w.

(** The source pixel at [(i, j)] is fully transparent. *)
Definition transparent_at (im : image) (i j : Z) : Prop :=
  source_at im (im_alpha im) i j = Some 0.

(** Every canvas pixel lying under a fully transparent pixel of the pasted
    chart keeps the colour it had. *)
Definition paste_keeps_under_transparent (img sensor_img : image) (sh : Z) : Prop :=
  forall x y old,
    getpixel img (x, y) = Ok old ->
    transparent_at sensor_img (x - sensor_x) (y - sensor_y sh) ->
    getpixel (paste_sensor img sensor_img sh) (x, y) = Ok old.

(** A one-row grey chart with an alpha band, fully transparent, in mode
    [LA], and the same chart in mode [RGBA]. *)
Definition la_chart : image :=
  {| mode := "LA"; im_width := 500; im_height := 1;
     im_rgb := replicate 500 (200, 200, 200); im_alpha := replicate 500 0 |}.

Definition rgba_chart : image :=
  {| mode := "RGBA"; im_width := 500; im_height := 1;
     im_rgb := replicate 500 (200, 200, 200); im_alpha := replicate 500 0 |}.

(** A one-row grey chart in mode [RGBA] that is fully opaque. *)
Definition opaque_chart : image :=
  {| mode := "RGBA"; im_width := 500; im_height := 1;
     im_rgb := replicate 500 (200, 200, 200); im_alpha := replicate 500 255 |}.

(** The weight toward the background that the loop applies in column 0,
    [alpha / 255], is 0.3, up to one step of [alpha]. *)
Definition weight_030_at_origin : Prop :=
  forall a, alpha 0 = Ok a -> Z.abs (10 * a - 3 * 255) <= 10.

(** [new] is [current] moved toward the background colour by the weight
    [a / 255]: on each channel the move is
    [floor((bg - current) * a / 255)]. *)
Definition moved_by_weight (a : Z) (current new : color) : Prop :=
  let '(c0, c1, c2) := current in
  let '(n0, n1, n2) := new in
  let '(b0, b1, b2) := bg_color in
  0 <= (b0 - c0) * a - 255 * (n0 - c0) <= 254 /\
  0 <= (b1 - c1) * a - 255 * (n1 - c1) <= 254 /\
  0 <= (b2 - c2) * a - 255 * (n2 - c2) <= 254.

(** The weight has come down to zero (within one step of [alpha]) at the
    last column before the chart. *)
Definition weight_vanishes_at_edge : Prop :=
  forall a, alpha (sensor_x - 1) = Ok a -> a <= 1.

(** The rows of the decorative line lie below the row at which the subtitle
    strings are anchored ([y] grows downward). *)
Definition accent_beneath_subtitle : Prop :=
  let '((_, y0), (_, y1)) := accent_rectangle in
  subtitle_y < y0 /\ subtitle_y < y1.

(** Inputs on which the properties are exercised: a rasteriser that draws
    nothing, a resize that returns a flat grey image of the requested size,
    three font loaders, the white 1000x600 chart of the end-to-end
    scenario, and one two-pixel chart written in two ways. *)
Definition no_text (img : image) (xy : Z * Z) (s : string) (c : color) (f : string) : image :=
  img.

Definition flat_resize (im : image) (size : Z * Z) : result image :=
  let '(w, h) := size in
  Ok {| mode := mode im; im_width := w; im_height := h;
        im_rgb := replicate (Z.to_nat (w * h)) (128, 128, 128);
        im_alpha := replicate (Z.to_nat (w * h)) 255 |}.

(** A loader that returns the size as the font. *)
Definition sized_fonts (name : string) (size : Z) : result Z := Ok size.


Definition resizes_flat (im : image) (size : Z * Z) (r : result image) : Prop :=
  r = flat_resize im size.

Definition draws_anything (img : image) (xy : Z * Z) (s : string) (c : color) (f : string)
    (out : image) : Prop :=
  im_width out = im_width img /\ im_height out = im_height img.

Definition ink_text (img : image) (xy : Z * Z) (s : string) (c : color) (f : string) : image :=
  rectangle img ((0, 0), (0, 0)) c.

Definition no_fonts (name : string) (size : Z) : result string := Raise OSError.

Definition fonts_but_20 (name : string) (size : Z) : result string :=
  if size =? 20 then Raise OSError else Ok name.


Definition white_chart : image :=
  {| mode := "RGB"; im_width := 1000; im_height := 600;
     im_rgb := replicate (Z.to_nat (1000 * 600)) (255, 255, 255); im_alpha := [] |}.



(** * Properties *)

(** ** Rounding in binary64

    The primitive operations are specified by [SFmul], [SFdiv] and
    [binary_normalize]; what the script needs from them is that a
    conversion of a small integer is exact and that a product or a quotient
    of two normal numbers is one of the two floats around the exact result,
    hence within a relative distance of [2^-52] of it. *)

Module Binary64.

Lemma digits2_pos_bounds p :
2 ^ (Z.pos (digits2_pos p) - 1) <= Z.pos p < 2 ^ Z.pos (digits2_pos p).
Proof.
induction p as [p IH|p IH|]; simpl digits2_pos.
- rewrite Pos2Z.inj_succ, Z.pow_succ_r by lia.
  replace (Z.succ (Z.pos (digits2_pos p)) - 1) with (Z.succ (Z.pos (digits2_pos p) - 1)) by lia.
  rewrite Z.pow_succ_r by lia. lia.
- rewrite Pos2Z.inj_succ, Z.pow_succ_r by lia.
  replace (Z.succ (Z.pos (digits2_pos p)) - 1) with (Z.succ (Z.pos (digits2_pos p) - 1)) by lia.
  rewrite Z.pow_succ_r by lia. lia.
- simpl. lia.
Qed.

Lemma digits2_pos_unique p d :
2 ^ (d - 1) <= Z.pos p < 2 ^ d -> Z.pos (digits2_pos p) = d.
Proof.
intros [Hlo Hhi]. pose proof (digits2_pos_bounds p) as [Hlo' Hhi'].
assert (0 < d).
{ destruct (Z.lt_ge_cases 0 d) as [|Hd]; [done|].
  destruct (Z.eq_dec d 0) as [->|]; [simpl in Hhi; lia|].
  rewrite Z.pow_neg_r in Hhi by lia. lia. }
set (d' := Z.pos (digits2_pos p)) in *.
destruct (Z.lt_trichotomy d' d) as [Hlt|[Heq|Hgt]]; [|done|].
- assert (2 ^ d' <= 2 ^ (d - 1)) by (apply Z.pow_le_mono_r; lia). lia.
- assert (2 ^ d <= 2 ^ (d' - 1)) by (apply Z.pow_le_mono_r; lia). lia.
Qed.

Lemma shr_1_m r : 0 <= shr_m r -> shr_m (shr_1 r) = shr_m r / 2.
Proof.
destruct r as [m r s]; simpl. intros Hm.
destruct m as [|[p|p|]|p]; cbn [shr_m]; try lia; try reflexivity.
- apply Z.div_unique with 1; lia.
- apply Z.div_unique with 0; lia.
Qed.

Lemma pow2_xO p : 2 ^ Z.pos p~0 = 2 ^ Z.pos p * 2 ^ Z.pos p.
Proof. replace (Z.pos p~0) with (Z.pos p + Z.pos p) by lia. apply Z.pow_add_r; lia. Qed.

Lemma pow2_xI p : 2 ^ Z.pos p~1 = 2 * (2 ^ Z.pos p * 2 ^ Z.pos p).
Proof.
replace (Z.pos p~1) with (Z.succ (Z.pos p + Z.pos p)) by lia.
rewrite Z.pow_succ_r, Z.pow_add_r; lia.
Qed.

Lemma iter_shr_1_m p r :
0 <= shr_m r -> shr_m (SpecFloat.iter_pos shr_1 p r) = shr_m r / 2 ^ Z.pos p.
Proof.
revert r. induction p as [p IH|p IH|]; intros r Hr; simpl SpecFloat.iter_pos.
- assert (H1 : 0 <= shr_m (shr_1 r)) by (rewrite shr_1_m by done; apply Z.div_pos; lia).
  assert (H2 : 0 <= shr_m (SpecFloat.iter_pos shr_1 p (shr_1 r))) by (rewrite IH by done; apply Z.div_pos; lia).
  rewrite IH, IH, shr_1_m by done.
  rewrite !Z.div_div by lia. f_equal. rewrite pow2_xI. lia.
- assert (H2 : 0 <= shr_m (SpecFloat.iter_pos shr_1 p r)) by (rewrite IH by done; apply Z.div_pos; lia).
  rewrite IH, IH by done.
  rewrite !Z.div_div by lia. f_equal. rewrite pow2_xO. lia.
- rewrite shr_1_m by done. reflexivity.
Qed.

Lemma round_nearest_even_cases m l :
round_nearest_even m l = m \/ round_nearest_even m l = m + 1.
Proof. destruct l as [|[]]; simpl; auto. destruct (Z.even m); auto. Qed.

Lemma shr_record_of_loc_m m l : shr_m (shr_record_of_loc m l) = m.
Proof. destruct l as [|[]]; reflexivity. Qed.

Lemma fexp_normal e : -1074 <= e - 53 -> fexp prec emax e = e - 53.
Proof. unfold fexp, SpecFloat.emin, prec, emax. lia. Qed.

Lemma shr_fexp_normal m e l d :
0 < m -> Zdigits2 m = d -> 53 <= d -> -1074 <= d + e - 53 ->
exists mrs, shr_fexp prec emax m e l = (mrs, e + (d - 53)) /\
            shr_m mrs = m / 2 ^ (d - 53) /\
            (d = 53 -> mrs = shr_record_of_loc m l).
Proof.
intros Hm Hd Hd53 Hlo. unfold shr_fexp. rewrite Hd, fexp_normal by lia.
replace (d + e - 53 - e) with (d - 53) by lia.
destruct (d - 53) as [|p|p] eqn:Hn; [| |lia].
- eexists; split; [simpl; f_equal; lia|]. split; [|done].
  rewrite shr_record_of_loc_m. simpl. symmetry. apply Z.div_1_r.
- eexists; split; [reflexivity|]. split; [|lia].
  rewrite iter_shr_1_m; rewrite shr_record_of_loc_m; [done|lia].
Qed.

Lemma pow2_split a b : 0 <= a -> 0 <= b -> 2 ^ (a + b) = 2 ^ a * 2 ^ b.
Proof. intros. apply Z.pow_add_r; lia. Qed.

Lemma Zdigits2_bounds m : 0 < m -> 2 ^ (Zdigits2 m - 1) <= m < 2 ^ Zdigits2 m.
Proof. destruct m; [lia| |lia]. intros _. apply digits2_pos_bounds. Qed.

Lemma Zdigits2_unique m d : 0 < m -> 2 ^ (d - 1) <= m < 2 ^ d -> Zdigits2 m = d.
Proof. destruct m; [lia| |lia]. intros _. apply digits2_pos_unique. Qed.

Lemma binary_round_aux_bracket sx mx ex lx d :
0 < mx -> Zdigits2 mx = d -> 53 <= d -> -1074 <= d + ex - 53 -> d + ex <= 1023 ->
exists m k lo n,
  binary_round_aux prec emax sx mx ex lx = S754_finite sx m (ex + k) /\
  2 ^ 52 <= Z.pos m < 2 ^ 53 /\ n = d - 53 /\ (k = n \/ k = n + 1) /\
  lo <= mx < lo + 2 ^ n /\ 2 ^ 52 * 2 ^ n <= lo /\
  (Z.pos m * 2 ^ k = lo \/ Z.pos m * 2 ^ k = lo + 2 ^ n) /\
  (lx = loc_Exact -> d = 53 -> Z.pos m = mx /\ k = 0).
Proof.
intros Hm Hd Hd53 Hlo Hhi.
destruct (shr_fexp_normal mx ex lx d Hm Hd Hd53 Hlo) as (mrs & Hshr & Hm1 & Hex).
pose proof (Zdigits2_bounds mx Hm) as Hb. rewrite Hd in Hb.
set (n := d - 53) in *.
assert (Hn : 0 <= n) by lia.
assert (Hpn : 0 < 2 ^ n) by (apply Z.pow_pos_nonneg; lia).
assert (Hd1 : 2 ^ (d - 1) = 2 ^ 52 * 2 ^ n)
  by (replace (d - 1) with (52 + n) by lia; apply pow2_split; lia).
assert (Hd2 : 2 ^ d = 2 ^ 53 * 2 ^ n)
  by (replace d with (53 + n) at 1 by lia; apply pow2_split; lia).
set (m1 := mx / 2 ^ n) in *.
assert (Hdiv : m1 * 2 ^ n <= mx < m1 * 2 ^ n + 2 ^ n).
{ pose proof (Z.div_mod mx (2 ^ n) ltac:(lia)) as E.
  pose proof (Z.mod_pos_bound mx (2 ^ n) Hpn). fold m1 in E. lia. }
assert (Hm1b : 2 ^ 52 <= m1 < 2 ^ 53).
{ split.
  - apply Z.div_le_lower_bound; lia.
  - apply Z.div_lt_upper_bound; lia. }
set (m2 := round_nearest_even (shr_m mrs) (loc_of_shr_record mrs)).
assert (Hm2 : m2 = m1 \/ m2 = m1 + 1).
{ unfold m2. rewrite Hm1. apply round_nearest_even_cases. }
unfold binary_round_aux. rewrite Hshr. fold m2.
destruct (Z.eq_dec m2 (2 ^ 53)) as [Hc|Hc].
- (* the rounded mantissa carries into a 54th bit *)
  assert (Hdig : Zdigits2 m2 = 54) by (apply Zdigits2_unique; rewrite Hc; simpl; lia).
  destruct (shr_fexp_normal m2 (ex + n) loc_Exact 54 ltac:(lia) Hdig ltac:(lia) ltac:(lia))
    as (mrs2 & Hshr2 & Hm3 & _).
  rewrite Hshr2, Hm3, Hc. change (2 ^ 53 / 2 ^ (54 - 53)) with (Z.pos (2 ^ 52)).
  replace (ex + n + (54 - 53) <=? emax - prec) with true
    by (symmetry; apply Z.leb_le; unfold emax, prec; lia).
  exists (2 ^ 52)%positive, (n + 1), (m1 * 2 ^ n), n.
  split; [f_equal; lia|]. split; [simpl; lia|]. split; [done|]. split; [lia|].
  split; [lia|]. split; [nia|]. split.
  + right. rewrite pow2_split by lia. change (2 ^ 1) with 2.
    change (Z.pos (2 ^ 52)) with (2 ^ 52).
    destruct Hm2 as [Hm2|Hm2]; [lia|]. nia.
  + intros -> Hd'. specialize (Hex Hd'). subst mrs.
    exfalso. unfold m2 in Hc. simpl in Hc. rewrite Hd' in Hb. lia.
- assert (Hm2b : 2 ^ 52 <= m2 < 2 ^ 53) by lia.
  assert (Hdig : Zdigits2 m2 = 53) by (apply Zdigits2_unique; simpl; lia).
  destruct (shr_fexp_normal m2 (ex + n) loc_Exact 53 ltac:(lia) Hdig ltac:(lia) ltac:(lia))
    as (mrs2 & Hshr2 & Hm3 & _).
  rewrite Hshr2, Hm3. change (2 ^ (53 - 53)) with 1. rewrite Z.div_1_r.
  destruct m2 as [|p2|p2] eqn:Ep2; [lia| |lia].
  replace (ex + n + (53 - 53) <=? emax - prec) with true
    by (symmetry; apply Z.leb_le; unfold emax, prec; lia).
  exists p2, n, (m1 * 2 ^ n), n.
  split; [f_equal; lia|]. split; [lia|]. split; [done|]. split; [lia|].
  split; [lia|]. split; [nia|]. split.
  + destruct Hm2 as [Hm2|Hm2]; [left|right]; nia.
  + intros -> Hd'. specialize (Hex Hd'). subst mrs.
    assert (n = 0) by lia. split; [|done].
    unfold m2 in Ep2. simpl in Ep2. lia.
Qed.

Lemma iter_xO_pos p d : Z.pos (Pos.iter xO p d) = Z.pos p * 2 ^ Z.pos d.
Proof.
induction d as [|d IH] using Pos.peano_ind.
- simpl. lia.
- rewrite Pos.iter_succ, Pos2Z.inj_succ, Z.pow_succ_r by lia.
  change (Z.pos (Pos.iter xO p d)~0) with (2 * Z.pos (Pos.iter xO p d)). lia.
Qed.

(** Conversion of a small positive integer is exact. *)
Lemma float_of_int_exact z :
1 <= z < 2 ^ 53 ->
exists m e, Prim2SF (of_uint63 (Uint63.of_Z z)) = S754_finite false m e /\
            2 ^ 52 <= Z.pos m < 2 ^ 53 /\ -52 <= e <= 0 /\ Z.pos m = z * 2 ^ (- e).
Proof.
intros Hz. rewrite of_uint63_spec, Uint63.of_Z_spec.
rewrite Z.mod_small by (change wB with 9223372036854775808; lia).
destruct z as [|p|p]; [lia| |lia]. cbn [binary_normalize]. unfold binary_round.
pose proof (digits2_pos_bounds p) as Hb.
set (d := Z.pos (digits2_pos p)) in *.
assert (Hd : 1 <= d <= 53).
{ split; [lia|]. destruct (Z.le_gt_cases d 53) as [|Hgt]; [done|].
  assert (2 ^ 53 <= 2 ^ (d - 1)) by (apply Z.pow_le_mono_r; lia). lia. }
rewrite Z.add_0_r, fexp_normal by lia. unfold shl_align. rewrite Z.sub_0_r.
destruct (d - 53) as [|q|q] eqn:Hq; [| lia |].
- assert (d = 53) by lia.
  destruct (binary_round_aux_bracket false (Z.pos p) 0 loc_Exact 53) as
    (m & k & lo & n & Hr & Hm & _ & _ & _ & _ & _ & Hex); try (simpl; lia).
  destruct (Hex eq_refl eq_refl) as [Hmp ->].
  exists m, 0. rewrite Hr. split; [done|]. split; [done|]. split; [lia|]. simpl. lia.
- assert (Hmz : Z.pos (Pos.iter xO p q) = Z.pos p * 2 ^ (53 - d)).
  { rewrite iter_xO_pos. do 2 f_equal. lia. }
  assert (Hpw : 2 ^ 52 = 2 ^ (d - 1) * 2 ^ (53 - d)).
  { rewrite <- pow2_split by lia. f_equal. lia. }
  assert (Hpw' : 2 ^ 53 = 2 ^ d * 2 ^ (53 - d)).
  { rewrite <- pow2_split by lia. f_equal. lia. }
  assert (0 < 2 ^ (53 - d)) by (apply Z.pow_pos_nonneg; lia).
  assert (Hmb : 2 ^ 52 <= Z.pos (Pos.iter xO p q) < 2 ^ 53).
  { rewrite Hmz, Hpw, Hpw'. nia. }
  destruct (binary_round_aux_bracket false (Z.pos (Pos.iter xO p q)) (Z.neg q) loc_Exact 53) as
    (m & k & lo & n & Hr & Hm & _ & _ & _ & _ & _ & Hex); try lia.
  { apply Zdigits2_unique; simpl; lia. }
  destruct (Hex eq_refl eq_refl) as [Hmp ->].
  exists m, (Z.neg q). rewrite Hr. split; [f_equal; lia|]. split; [done|]. split; [lia|].
  rewrite Hmp, Hmz. do 2 f_equal. lia.
Qed.

Lemma SF64mul_bracket mx ex my ey :
2 ^ 52 <= Z.pos mx < 2 ^ 53 -> 2 ^ 52 <= Z.pos my < 2 ^ 53 ->
-1126 <= ex + ey <= 917 ->
exists m k, SF64mul (S754_finite false mx ex) (S754_finite false my ey)
            = S754_finite false m (ex + ey + k) /\
            0 <= k <= 54 /\ 2 ^ 52 <= Z.pos m < 2 ^ 53 /\
            2 ^ 52 * Z.abs (Z.pos m * 2 ^ k - Z.pos mx * Z.pos my) <= Z.pos mx * Z.pos my.
Proof.
intros Hx Hy He. unfold SF64mul, SFmul. cbn [xorb].
set (M := Z.pos (mx * my)). assert (HM : M = Z.pos mx * Z.pos my) by (unfold M; lia).
assert (HMb : 2 ^ 104 <= M < 2 ^ 106).
{ rewrite HM. change (2 ^ 104) with (2 ^ 52 * 2 ^ 52). change (2 ^ 106) with (2 ^ 53 * 2 ^ 53). nia. }
pose proof (Zdigits2_bounds M ltac:(lia)) as Hb.
set (d := Zdigits2 M) in *.
assert (Hd : 105 <= d <= 106).
{ split.
  - destruct (Z.le_gt_cases 105 d) as [|Hlt]; [done|].
    assert (2 ^ d <= 2 ^ 104) by (apply Z.pow_le_mono_r; lia). lia.
  - destruct (Z.le_gt_cases d 106) as [|Hgt]; [done|].
    assert (2 ^ 106 <= 2 ^ (d - 1)) by (apply Z.pow_le_mono_r; lia). lia. }
destruct (binary_round_aux_bracket false M (ex + ey) loc_Exact d
            ltac:(lia) eq_refl ltac:(lia) ltac:(lia) ltac:(lia)) as
  (m & k & lo & n & Hr & Hm & Hn & Hk & Hlo & Hlo2 & HR & _).
exists m, k. rewrite Hr. split; [done|]. split; [lia|]. split; [done|].
rewrite <- HM. assert (0 < 2 ^ n) by (apply Z.pow_pos_nonneg; lia). lia.
Qed.

Lemma SF64div_bracket mx ex my ey :
2 ^ 52 <= Z.pos mx < 2 ^ 53 -> 2 ^ 52 <= Z.pos my < 2 ^ 53 ->
-1021 <= ex - ey <= 1020 ->
exists m k, SF64div (S754_finite false mx ex) (S754_finite false my ey)
            = S754_finite false m (ex - ey - 53 + k) /\
            0 <= k <= 2 /\ 2 ^ 52 <= Z.pos m < 2 ^ 53 /\
            2 ^ 52 * Z.abs (Z.pos m * 2 ^ k * Z.pos my - Z.pos mx * 2 ^ 53) <= Z.pos mx * 2 ^ 53.
Proof.
intros Hx Hy He. unfold SF64div, SFdiv, SFdiv_core_binary. cbn [xorb].
rewrite (Zdigits2_unique (Z.pos mx) 53), (Zdigits2_unique (Z.pos my) 53) by (simpl; lia).
replace (53 + ex - (53 + ey)) with (ex - ey) by lia.
rewrite fexp_normal by lia.
replace (Z.min (ex - ey - 53) (ex - ey)) with (ex - ey - 53) by lia.
replace (ex - ey - (ex - ey - 53)) with 53 by lia.
rewrite Z.shiftl_mul_pow2 by lia.
set (N := Z.pos mx * 2 ^ 53).
pose proof (Z_div_mod N (Z.pos my) ltac:(lia)) as Hdm.
destruct (Z.div_eucl N (Z.pos my)) as [q r]. destruct Hdm as [HN Hr].
assert (Hq : 2 ^ 52 <= q < 2 ^ 54).
{ unfold N in HN. change (2 ^ 54) with (2 * 2 ^ 53). nia. }
pose proof (Zdigits2_bounds q ltac:(lia)) as Hb.
set (d := Zdigits2 q) in *.
assert (Hd : 53 <= d <= 54).
{ split.
  - destruct (Z.le_gt_cases 53 d) as [|Hlt]; [done|].
    assert (2 ^ d <= 2 ^ 52) by (apply Z.pow_le_mono_r; lia). lia.
  - destruct (Z.le_gt_cases d 54) as [|Hgt]; [done|].
    assert (2 ^ 54 <= 2 ^ (d - 1)) by (apply Z.pow_le_mono_r; lia). lia. }
destruct (binary_round_aux_bracket false q (ex - ey - 53) (new_location (Z.pos my) r) d
            ltac:(lia) eq_refl ltac:(lia) ltac:(lia) ltac:(lia)) as
  (m & k & lo & n & Hres & Hm & Hn & Hk & Hlo & Hlo2 & HR & _).
exists m, k. rewrite Hres. split; [done|]. split; [lia|]. split; [done|].
assert (0 < 2 ^ n) by (apply Z.pow_pos_nonneg; lia).
set (Y := Z.pos my) in *. set (P := 2 ^ n) in *. set (R := Z.pos m * 2 ^ k) in *.
assert (lo * Y <= N) by nia.
assert (N < (lo + P) * Y) by nia.
assert (2 ^ 52 * (P * Y) <= lo * Y) by nia.
destruct HR as [-> | ->]; lia.
Qed.

End Binary64.

Import Binary64.

(** ** Truncation of the float product *)

Lemma float_500 : Prim2SF (Py.float_of_int sensor_width) = S754_finite false 8796093022208000 (-44).
Proof. vm_compute. reflexivity. Qed.

Lemma trunc_SF_floor m e G U :
  0 < G -> 0 < U ->
  (e < 0 -> 2 ^ (- e) * G = U) -> (0 <= e -> G = U * 2 ^ e) ->
  exists z, Py.trunc_SF (S754_finite false m e) = Ok z /\
            U * z <= Z.pos m * G < U * z + U.
Proof.
  intros HG HU Hneg Hpos. unfold Py.trunc_SF.
  destruct e as [|p|p].
  - eexists; split; [done|]. rewrite (Hpos ltac:(lia)). simpl. lia.
  - eexists; split; [done|]. rewrite (Hpos ltac:(lia)). nia.
  - eexists; split; [done|]. specialize (Hneg ltac:(lia)).
    change (- Z.neg p) with (Z.pos p) in *.
    assert (0 < 2 ^ Z.pos p) by (apply Z.pow_pos_nonneg; lia).
    pose proof (Z.div_mod (Z.pos m) (2 ^ Z.pos p) ltac:(lia)) as E.
    pose proof (Z.mod_pos_bound (Z.pos m) (2 ^ Z.pos p) ltac:(lia)).
    set (q := Z.pos m `div` 2 ^ Z.pos p) in *.
    set (r := Z.pos m `mod` 2 ^ Z.pos p) in *.
    rewrite <- Hneg. nia.
Qed.

(** The two roundings in [h * (500 / w)] move the product by less than
    [1 / w], so truncation lands on the exact floor, or one below it when
    the exact quotient is an integer. *)
Lemma sensor_height_bounds w h :
  1 <= w < 2 ^ 31 -> 1 <= h < 2 ^ 31 ->
  exists sh, sensor_height w h = Ok sh /\
             w * sh <= 500 * h <= w * sh + w.
Proof.
  intros Hw Hh. unfold sensor_height, Py.truediv.
  destruct (Z.eqb_spec w 0) as [|_]; [lia|].
  cbn [mbind result_bind]. unfold Py.int.
  rewrite FloatAxioms.mul_spec, FloatAxioms.div_spec, float_500.
  unfold Py.float_of_int.
  destruct (float_of_int_exact w ltac:(lia)) as (mw & ew & -> & Hmw & Hew & HA).
  destruct (float_of_int_exact h ltac:(lia)) as (mh & eh & -> & Hmh & Heh & HB).
  destruct (SF64div_bracket 8796093022208000 (-44) mw ew ltac:(lia) Hmw ltac:(lia))
    as (mq & kq & -> & Hkq & Hmq & HD).
  destruct (SF64mul_bracket mh eh mq (-44 - ew - 53 + kq) Hmh Hmq ltac:(lia))
    as (mp & kp & -> & Hkp & Hmp & HM).
  set (A := 2 ^ (- ew)) in *. set (B := 2 ^ (- eh)) in *.
  assert (HA0 : 0 < A) by (apply Z.pow_pos_nonneg; lia).
  assert (HB0 : 0 < B) by (apply Z.pow_pos_nonneg; lia).
  assert (Hq0 : 0 < 2 ^ kq) by (apply Z.pow_pos_nonneg; lia).
  assert (Hp0 : 0 < 2 ^ kp) by (apply Z.pow_pos_nonneg; lia).
  set (U := B * 2 ^ 97). set (G := 2 ^ kq * 2 ^ kp * A).
  destruct (trunc_SF_floor mp (eh + (-44 - ew - 53 + kq) + kp) G U) as (sh & -> & Hsh).
  { unfold G. nia. }
  { unfold U. lia. }
  { intros He. unfold G, U, A, B. rewrite <- !pow2_split by lia. f_equal. lia. }
  { intros He. unfold G, U, A, B. rewrite <- !pow2_split by lia. f_equal. lia. }
  exists sh. split; [done|].
  (* the error of the two roundings, scaled to integers *)
  set (T := 500 * h * U).
  set (X := h * B * (Z.pos mq * 2 ^ kq) * A * w).
  set (Y := Z.pos mp * G * w).
  assert (HXT : 2 ^ 52 * Z.abs (X - T) <= T).
  { replace (X - T) with (h * B * (Z.pos mq * 2 ^ kq * Z.pos mw - 8796093022208000 * 2 ^ 53))
      by (unfold X, T, U; rewrite HA; fold A; change 8796093022208000 with (500 * 2 ^ 44);
          change (2 ^ 97) with (2 ^ 44 * 2 ^ 53); ring).
    replace T with (h * B * (8796093022208000 * 2 ^ 53))
      by (unfold T, U; change 8796093022208000 with (500 * 2 ^ 44);
          change (2 ^ 97) with (2 ^ 44 * 2 ^ 53); ring).
    rewrite Z.abs_mul, (Z.abs_eq (h * B)) by nia.
    assert (0 <= h * B) by nia. nia. }
  assert (HYX : 2 ^ 52 * Z.abs (Y - X) <= X).
  { replace (Y - X) with (2 ^ kq * A * w * (Z.pos mp * 2 ^ kp - Z.pos mh * Z.pos mq))
      by (unfold Y, X, G; rewrite HB; fold B; ring).
    replace X with (2 ^ kq * A * w * (Z.pos mh * Z.pos mq))
      by (unfold X; rewrite HB; fold B; ring).
    assert (0 <= 2 ^ kq * A * w) by nia.
    rewrite Z.abs_mul, (Z.abs_eq (2 ^ kq * A * w)) by done. nia. }
  assert (HU0 : 0 < U) by (unfold U; lia).
  assert (HT : T <= 500 * (2 ^ 31 - 1) * U).
  { unfold T. apply Z.mul_le_mono_nonneg_r; lia. }
  assert (HT0 : 0 <= T).
  { unfold T. apply Z.mul_nonneg_nonneg; lia. }
  assert (HYT : T - U < Y < T + U) by lia.
  destruct Hsh as [Hsh1 Hsh2].
  assert (Hs1 : U * (w * sh) <= Y).
  { unfold Y. replace (U * (w * sh)) with (U * sh * w) by ring.
    apply Z.mul_le_mono_nonneg_r; [lia|exact Hsh1]. }
  assert (Hs2 : Y < U * (w * sh + w)).
  { unfold Y. replace (U * (w * sh + w)) with ((U * sh + U) * w) by ring.
    apply Z.mul_lt_mono_pos_r; [lia|exact Hsh2]. }
  assert (HTU : T = U * (500 * h)) by (unfold T; ring).
  assert (Hup : w * sh < 500 * h + 1).
  { apply (Z.mul_lt_mono_pos_l U); lia. }
  assert (Hdn : 500 * h - 1 < w * sh + w).
  { apply (Z.mul_lt_mono_pos_l U); lia. }
  lia.
Qed.

(** ** Reading and writing pixels *)

Lemma in_bounds_spec img x y :
  in_bounds img x y = true <-> 0 <= x < im_width img /\ 0 <= y < im_height img.
Proof. unfold in_bounds. rewrite !andb_true_iff, !Z.leb_le, !Z.ltb_lt. lia. Qed.

Lemma offset_lt img x y :
  wf_image img -> in_bounds img x y = true -> (offset img x y < length (im_rgb img))%nat.
Proof.
  intros (Hw & Hh & Hlen) Hb%in_bounds_spec. rewrite Hlen. unfold offset.
  apply Z2Nat.inj_lt; nia.
Qed.

Lemma offset_coords img x y :
  in_bounds img x y = true ->
  Z.of_nat (offset img x y) `mod` im_width img = x /\
  Z.of_nat (offset img x y) `div` im_width img = y.
Proof.
  intros Hb%in_bounds_spec. unfold offset. rewrite Z2Nat.id by nia. split.
  - symmetry. apply Z.mod_unique_pos with y; lia.
  - symmetry. apply Z.div_unique_pos with x; lia.
Qed.

Lemma offset_inj img x y x' y' :
  in_bounds img x y = true -> in_bounds img x' y' = true ->
  offset img x y = offset img x' y' -> x = x' /\ y = y'.
Proof.
  intros Hb Hb' Ho.
  destruct (offset_coords img x y Hb) as [Hx Hy].
  destruct (offset_coords img x' y' Hb') as [Hx' Hy'].
  rewrite Ho in Hx, Hy. lia.
Qed.

Lemma getpixel_Ok_bounds img x y c : getpixel img (x, y) = Ok c -> in_bounds img x y = true.
Proof. unfold getpixel. destruct (in_bounds img x y); [done|discriminate]. Qed.

Lemma getpixel_total img x y :
  wf_image img -> in_bounds img x y = true -> exists c, getpixel img (x, y) = Ok c.
Proof.
  intros Hwf Hb. unfold getpixel. rewrite Hb.
  destruct (lookup_lt_is_Some_2 (im_rgb img) (offset img x y) (offset_lt _ _ _ Hwf Hb)) as [c ->].
  by exists c.
Qed.

Lemma getpixel_out img x y : in_bounds img x y = false -> getpixel img (x, y) = Raise IndexError.
Proof. unfold getpixel. by intros ->. Qed.

(** What [putpixel] changes and what it leaves alone. *)
Lemma putpixel_spec img x y c :
  wf_image img -> in_bounds img x y = true ->
  exists img', putpixel img (x, y) c = Ok img' /\
    wf_image img' /\ im_width img' = im_width img /\ im_height img' = im_height img /\
    getpixel img' (x, y) = Ok c /\
    (forall x' y', (x', y') <> (x, y) -> getpixel img' (x', y') = getpixel img (x', y')).
Proof.
  intros Hwf Hb. unfold putpixel. rewrite Hb. eexists; split; [done|].
  split; [|split; [done|split; [done|split]]].
  - destruct Hwf as (? & ? & Hlen). unfold wf_image; cbn. by rewrite length_insert.
  - unfold getpixel, in_bounds, offset in *; cbn. unfold in_bounds in Hb. rewrite Hb.
    rewrite list_lookup_insert_eq; [done|]. by apply (offset_lt img x y).
  - intros x' y' Hne. unfold getpixel. change (in_bounds _ x' y') with (in_bounds img x' y').
    destruct (in_bounds img x' y') eqn:Hb'; [|done].
    cbn [im_rgb]. change (offset _ x' y') with (offset img x' y').
    rewrite list_lookup_insert_ne; [done|].
    intros Ho. apply offset_inj in Ho as [-> ->]; done.
Qed.

(** ** Loops over a range *)

Lemma for_in_seqZ {S} (P : Z -> S -> Prop) (body : Z -> S -> result S) n :
  forall m s, 0 <= n -> P m s ->
  (forall i s, m <= i < m + n -> P i s -> exists s', body i s = Ok s' /\ P (i + 1) s') ->
  exists s', for_in (seqZ m n) body s = Ok s' /\ P (m + n) s'.
Proof.
  intros m s Hn. revert m s. pattern n. apply natlike_ind; [| |done]; clear n Hn.
  - intros m s HP _. exists s. rewrite Z.add_0_r. done.
  - intros n Hn IH m s HP Hbody.
    rewrite seqZ_cons by lia. cbn [for_in].
    destruct (Hbody m s ltac:(lia) HP) as (s1 & -> & HP1). cbn [mbind result_bind].
    replace (Z.pred (Z.succ n)) with n by lia.
    destruct (IH (Z.succ m) s1) as (s' & Hs' & HP').
    + by replace (Z.succ m) with (m + 1) by lia.
    + intros i s2 Hi. apply Hbody. lia.
    + exists s'. split; [done|]. by replace (m + Z.succ n) with (Z.succ m + n) by lia.
Qed.

(** ** The overlay loops *)

Lemma forallb_seqZ (P : Z -> bool) m n :
  forallb P (seqZ m n) = true -> forall x, m <= x < m + n -> P x = true.
Proof.
  intros H x Hx. rewrite forallb_forall in H. apply H.
  apply list_elem_of_In, elem_of_seqZ. lia.
Qed.

(** The float expression of [alpha] equals its exact rational reading on
    every column the loop visits (checked column by column). *)
Lemma alpha_closed_form x : 0 <= x < sensor_x -> alpha x = Ok (alpha_floor x).
Proof.
  intros Hx.
  assert (H : forallb alpha_agrees (range sensor_x) = true) by (vm_compute; reflexivity).
  apply forallb_seqZ with (x := x) in H; [|lia].
  unfold alpha_agrees in H. destruct (alpha x); [|done]. f_equal. lia.
Qed.

Lemma overlay_column_spec x a img :
  wf_image img -> 0 <= x < im_width img -> height <= im_height img ->
  exists img', overlay_column x a img = Ok img' /\
    wf_image img' /\ im_width img' = im_width img /\ im_height img' = im_height img /\
    forall x' y' c, getpixel img (x', y') = Ok c ->
      getpixel img' (x', y') = Ok (if (x' =? x) && (y' <? height) then overlay_pixel a c else c).
Proof.
  intros Hwf Hx Hh. unfold overlay_column, range.
  set (P := fun (y : Z) (s : image) =>
    wf_image s /\ im_width s = im_width img /\ im_height s = im_height img /\
    forall x' y' c, getpixel img (x', y') = Ok c ->
      getpixel s (x', y') = Ok (if (x' =? x) && (y' <? y) then overlay_pixel a c else c)).
  destruct (for_in_seqZ P
              (fun y img => current ← getpixel img (x, y); putpixel img (x, y) (overlay_pixel a current))
              height 0 img) as (img' & Hrun & HP).
  - done.
  - repeat split; try done; try apply Hwf.
    intros x' y' c Hc. rewrite Hc. f_equal.
    apply getpixel_Ok_bounds, in_bounds_spec in Hc.
    replace (y' <? 0) with false by (symmetry; apply Z.ltb_ge; lia).
    by rewrite andb_false_r.
  - intros i s Hi (Hwfs & Hws & Hhs & Hpix).
    assert (Hb : in_bounds img x i = true) by (apply in_bounds_spec; lia).
    assert (Hbs : in_bounds s x i = true) by (apply in_bounds_spec; lia).
    destruct (getpixel_total img x i Hwf Hb) as [c0 Hc0].
    pose proof (Hpix x i c0 Hc0) as Hs0.
    rewrite Z.ltb_irrefl, andb_false_r in Hs0. rewrite Hs0. cbn [mbind result_bind].
    destruct (putpixel_spec s x i (overlay_pixel a c0) Hwfs Hbs)
      as (s' & -> & Hwf' & Hw' & Hh' & Hsame & Hother).
    exists s'. split; [done|]. split; [done|]. split; [congruence|]. split; [congruence|].
    intros x' y' c Hc.
    destruct (decide ((x', y') = (x, i))) as [[= -> ->]|Hne].
    + rewrite Hsame. rewrite Hc0 in Hc. injection Hc as ->.
      rewrite Z.eqb_refl. replace (i <? i + 1) with true by (symmetry; apply Z.ltb_lt; lia).
      done.
    + rewrite Hother, (Hpix x' y' c Hc) by done. f_equal.
      destruct (Z.eqb_spec x' x) as [->|]; [|done]. cbn [andb].
      assert (y' <> i) by congruence.
      destruct (Z.ltb_spec y' i), (Z.ltb_spec y' (i + 1)); try done; lia.
  - exists img'. split; [done|].
    destruct HP as (? & ? & ? & Hpix). by rewrite Z.add_0_l in Hpix.
Qed.

Lemma gradient_overlay_spec img :
  wf_image img -> sensor_x <= im_width img -> height <= im_height img ->
  exists img', gradient_overlay img = Ok img' /\
    wf_image img' /\ im_width img' = im_width img /\ im_height img' = im_height img /\
    forall x' y' c, getpixel img (x', y') = Ok c ->
      getpixel img' (x', y') =
        Ok (if (x' <? sensor_x) && (y' <? height) then overlay_pixel (alpha_floor x') c else c).
Proof.
  intros Hwf Hw Hh. unfold gradient_overlay, range.
  set (P := fun (x : Z) (s : image) =>
    wf_image s /\ im_width s = im_width img /\ im_height s = im_height img /\
    forall x' y' c, getpixel img (x', y') = Ok c ->
      getpixel s (x', y') =
        Ok (if (x' <? x) && (y' <? height) then overlay_pixel (alpha_floor x') c else c)).
  destruct (for_in_seqZ P (fun x img => a ← alpha x; overlay_column x a img) sensor_x 0 img)
    as (img' & Hrun & HP).
  - done.
  - repeat split; try done; try apply Hwf.
    intros x' y' c Hc. rewrite Hc. f_equal.
    apply getpixel_Ok_bounds, in_bounds_spec in Hc.
    by replace (x' <? 0) with false by (symmetry; apply Z.ltb_ge; lia).
  - intros i s Hi (Hwfs & Hws & Hhs & Hpix).
    rewrite alpha_closed_form by lia. cbn [mbind result_bind].
    destruct (overlay_column_spec i (alpha_floor i) s Hwfs ltac:(lia) ltac:(lia))
      as (s' & -> & Hwf' & Hw' & Hh' & Hcol).
    exists s'. split; [done|]. split; [done|]. split; [congruence|]. split; [congruence|].
    intros x' y' c Hc. rewrite (Hcol x' y' _ (Hpix x' y' c Hc)). f_equal.
    destruct (Z.eqb_spec x' i) as [->|Hne].
    + rewrite Z.ltb_irrefl. replace (i <? i + 1) with true by (symmetry; apply Z.ltb_lt; lia).
      done.
    + cbn [andb].
      destruct (Z.ltb_spec x' i), (Z.ltb_spec x' (i + 1)); try done; lia.
  - exists img'. split; [done|].
    destruct HP as (? & ? & ? & Hpix). by rewrite Z.add_0_l in Hpix.
Qed.


(** ** The canvas, the paste and the rectangle *)

Lemma wf_Image_new w h c : 0 <= w -> 0 <= h -> wf_image (Image_new w h c).
Proof. intros. unfold wf_image; cbn. by rewrite length_replicate. Qed.

Lemma getpixel_Image_new w h c x y :
  in_bounds (Image_new w h c) x y = true -> getpixel (Image_new w h c) (x, y) = Ok c.
Proof.
  intros Hb. pose proof Hb as Hb'%in_bounds_spec. cbn in Hb'.
  assert (Hwf : wf_image (Image_new w h c)) by (apply wf_Image_new; lia).
  pose proof (offset_lt _ x y Hwf Hb) as Hlt.
  unfold getpixel. rewrite Hb. cbn [Image_new im_rgb] in *.
  rewrite length_replicate in Hlt. by rewrite lookup_replicate_2.
Qed.

(** A pixel-wise update of the raster is seen through [getpixel] as the
    same update of the pixel read. *)
Lemma getpixel_imap (f : Z -> Z -> color -> color) img img' x y :
  im_width img' = im_width img -> im_height img' = im_height img ->
  im_rgb img' = imap (fun k old => f (Z.of_nat k `mod` im_width img)
                                     (Z.of_nat k `div` im_width img) old) (im_rgb img) ->
  getpixel img' (x, y) =
    match getpixel img (x, y) with
    | Ok old => Ok (f x y old)
    | Raise e => Raise e
    end.
Proof.
  intros Hw Hh Hrgb. unfold getpixel.
  replace (in_bounds img' x y) with (in_bounds img x y) by (unfold in_bounds; by rewrite Hw, Hh).
  destruct (in_bounds img x y) eqn:Hb; [|done].
  replace (offset img' x y) with (offset img x y) by (unfold offset; by rewrite Hw).
  rewrite Hrgb, list_lookup_imap.
  destruct (im_rgb img !! offset img x y) as [old|]; [|done]. cbn.
  destruct (offset_coords img x y Hb) as [-> ->]. done.
Qed.

Lemma getpixel_paste dst im x0 y0 mask x y :
  getpixel (paste dst im (x0, y0) mask) (x, y) =
    match getpixel dst (x, y) with
    | Ok old => Ok (paste_pixel im mask (x - x0) (y - y0) old)
    | Raise e => Raise e
    end.
Proof. by apply (getpixel_imap (fun x y old => paste_pixel im mask (x - x0) (y - y0) old)). Qed.

Lemma getpixel_rectangle img xy fill x y :
  getpixel (rectangle img xy fill) (x, y) =
    match getpixel img (x, y) with
    | Ok old => Ok (if in_rectangle xy x y then fill else old)
    | Raise e => Raise e
    end.
Proof. by apply (getpixel_imap (fun x y old => if in_rectangle xy x y then fill else old)). Qed.

Lemma wf_paste dst im box mask : wf_image dst -> wf_image (paste dst im box mask).
Proof.
  destruct box as [x0 y0]. intros (? & ? & Hlen). unfold wf_image; cbn. by rewrite length_imap.
Qed.

Lemma paste_sensor_canvas sensor_img sh :
  let img := paste_sensor (Image_new width height bg_color) sensor_img sh in
  wf_image img /\ im_width img = width /\ im_height img = height.
Proof.
  cbn zeta. split; [|done]. apply wf_paste, wf_Image_new; unfold width, height; lia.
Qed.

(** The blend at the two ends of the mask's range, on 8-bit channels. *)
Lemma DIV255_255 d : 0 <= d <= 255 -> DIV255 (d * 255) = d.
Proof.
  intros Hd.
  assert (H : forallb (fun d => DIV255 (d * 255) =? d) (seqZ 0 256) = true)
    by (vm_compute; reflexivity).
  apply forallb_seqZ with (x := d) in H; lia.
Qed.

Lemma BLEND_transparent d s : 0 <= d <= 255 -> BLEND 0 d s = d.
Proof.
  intros Hd. unfold BLEND. replace (d * (255 - 0) + s * 0) with (d * 255) by lia.
  by apply DIV255_255.
Qed.

Lemma BLEND_opaque d s : 0 <= s <= 255 -> BLEND 255 d s = s.
Proof.
  intros Hs. unfold BLEND. replace (d * (255 - 255) + s * 255) with (s * 255) by lia.
  by apply DIV255_255.
Qed.

(** ** The weight of the overlay *)

Lemma alpha_floor_range x : 0 <= x < sensor_x -> 178 <= alpha_floor x <= 255.
Proof.
  unfold alpha_floor, sensor_x, width, sensor_width. intros Hx. split.
  - apply Z.div_le_lower_bound; lia.
  - apply Z.div_le_upper_bound; lia.
Qed.

Lemma alpha_floor_antitone x x' : x <= x' -> alpha_floor x' <= alpha_floor x.
Proof.
  unfold alpha_floor, sensor_x, width, sensor_width. intros Hx.
  apply Z.div_le_mono; lia.
Qed.

Lemma shift_channel_255 current bg : shift_channel current bg 255 = bg.
Proof. unfold shift_channel. rewrite Z.div_mul by lia. lia. Qed.

Lemma overlay_pixel_255 current : overlay_pixel 255 current = bg_color.
Proof.
  destruct current as [[c0 c1] c2]. unfold overlay_pixel, bg_color.
  rewrite !shift_channel_255. reflexivity.
Qed.

(** The weight at both ends and in the middle of the region, and what the
    blend does to a white pixel in the first and in the last column. *)
Example alpha_0 : alpha 0 = Ok 255.
Proof. vm_compute. reflexivity. Qed.

Example alpha_240 : alpha 240 = Ok 216.
Proof. vm_compute. reflexivity. Qed.

Example alpha_479 : alpha 479 = Ok 178.
Proof. vm_compute. reflexivity. Qed.

Example overlay_white_first_column : overlay_pixel 255 (255, 255, 255) = (15, 23, 42).
Proof. reflexivity. Qed.

Example overlay_white_last_column : overlay_pixel 178 (255, 255, 255) = (87, 93, 106).
Proof. reflexivity. Qed.

Lemma shift_channel_floor current bg a :
  0 <= (bg - current) * a - 255 * (shift_channel current bg a - current) <= 254.
Proof.
  unfold shift_channel.
  pose proof (Z.div_mod ((bg - current) * a) 255 ltac:(lia)).
  pose proof (Z.mod_pos_bound ((bg - current) * a) 255 ltac:(lia)). lia.
Qed.

Lemma shift_channel_le_255 current bg a :
  0 <= a <= 255 -> current <= 255 -> bg <= 255 -> shift_channel current bg a <= 255.
Proof.
  intros Ha Hc Hb. pose proof (shift_channel_floor current bg a) as [Hlo _].
  destruct (Z.le_ge_cases current bg); nia.
Qed.

Lemma overlay_pixel_moved a current :
  0 <= a <= 255 -> byte_color current ->
  moved_by_weight a current (overlay_pixel a current).
Proof.
  destruct current as [[c0 c1] c2]. unfold byte_color, byte. intros Ha (H0 & H1 & H2).
  unfold moved_by_weight, overlay_pixel, bg_color.
  rewrite !Z.min_r by (apply shift_channel_le_255; lia).
  split; [|split]; apply shift_channel_floor.
Qed.

(** C1, as stated, fails: in column 0 the loop computes [alpha = 255], a
    weight of [255/255] and not of 0.3, and in the last column before the
    chart it still computes [alpha = 178]. *)
Lemma overlay_weight_counterexample : ~ weight_030_at_origin /\ ~ weight_vanishes_at_edge.
Proof.
  split.
  - intros H. specialize (H 255 ltac:(vm_compute; reflexivity)). lia.
  - intros H. specialize (H 178 ltac:(vm_compute; reflexivity)). lia.
Qed.

(** C1, amended: in every column [0 <= x < sensor_x] the loop blends with
    [alpha = floor(255 * (1 - 0.3 * x / sensor_x))], a weight [alpha / 255]
    toward the background that is 1 at [x = 0] (the pixel becomes the
    background colour), never increases with [x], and is still [178 / 255]
    at the last column.  A pixel with 8-bit channels is moved on each
    channel by [floor((bg - current) * alpha / 255)], and on any
    well-formed image that holds the region the loops replace every pixel
    of the column by that blend of what was there. *)
Theorem overlay_weight x :
  0 <= x < sensor_x ->
  alpha x = Ok (alpha_floor x) /\
  178 <= alpha_floor x <= 255 /\
  alpha_floor 0 = 255 /\ alpha_floor (sensor_x - 1) = 178 /\
  (forall x', x <= x' -> alpha_floor x' <= alpha_floor x) /\
  (forall current, byte_color current ->
     moved_by_weight (alpha_floor x) current (overlay_pixel (alpha_floor x) current)) /\
  (forall current, overlay_pixel (alpha_floor 0) current = bg_color) /\
  (forall img,
     wf_image img -> sensor_x <= im_width img -> height <= im_height img ->
     exists img',
       gradient_overlay img = Ok img' /\
       forall y c,
         y < height -> getpixel img (x, y) = Ok c ->
         getpixel img' (x, y) = Ok (overlay_pixel (alpha_floor x) c)).
Proof.
  intros Hx. pose proof (alpha_floor_range x Hx) as Hr.
  split; [by apply alpha_closed_form|]. split; [done|].
  split; [reflexivity|]. split; [reflexivity|].
  split; [intros x'; apply alpha_floor_antitone|].
  split; [intros c Hc; apply overlay_pixel_moved; [lia|done]|].
  split; [intros c; apply overlay_pixel_255|].
  intros img Hwf Hw Hh.
  destruct (gradient_overlay_spec img Hwf Hw Hh) as (img' & Hrun & _ & _ & _ & Hpix).
  exists img'. split; [exact Hrun|]. intros y c Hy Hc. rewrite (Hpix x y c Hc). f_equal.
  replace (x <? sensor_x) with true by (symmetry; apply Z.ltb_lt; lia).
  by replace (y <? height) with true by (symmetry; apply Z.ltb_lt; lia).
Qed.

(** On a white canvas the pixel at the top of the last column, [x = 479],
    is moved by the weight [178 / 255]. *)
Lemma overlay_weight_witness :
  exists img',
    gradient_overlay (Image_new 1000 420 (255, 255, 255)) = Ok img' /\
    getpixel img' (479, 0) = Ok (87, 93, 106) /\
    moved_by_weight 178 (255, 255, 255) (87, 93, 106).
Proof.
  assert (Hx : 0 <= 479 < sensor_x) by (unfold sensor_x, width, sensor_width; lia).
  destruct (overlay_weight 479 Hx) as (_ & _ & _ & _ & _ & Hmove & _ & Hloop).
  destruct (Hloop (Image_new 1000 420 (255, 255, 255))) as (img' & Hrun & Hpix).
  - apply wf_Image_new; lia.
  - unfold sensor_x, width, sensor_width. simpl. lia.
  - unfold height. simpl. lia.
  - exists img'. split; [exact Hrun|]. split.
    + rewrite (Hpix 0 (255, 255, 255)); [reflexivity|unfold height; lia|].
      apply getpixel_Image_new. reflexivity.
    + apply (Hmove (255, 255, 255)). unfold byte_color, byte. lia.
Defined.

(** C6: the weight at the leftmost column is strictly greater than the
    weight at the last column before the chart. *)
Theorem weight_left_exceeds_edge :
  exists a0 a1, alpha 0 = Ok a0 /\ alpha (sensor_x - 1) = Ok a1 /\ a1 < a0.
Proof. exists 255, 178. vm_compute. repeat split. Qed.

(** C10: with [0 <= alpha <= 255] and 8-bit channels, the value the loop
    computes for a channel lies between the channel and the background
    channel, hence in [0, 255]; [min(255, ...)] leaves it as it is and it is
    never negative. *)
Theorem shift_channel_between current bg a :
  0 <= a <= 255 -> byte current -> byte bg ->
  Z.min current bg <= shift_channel current bg a <= Z.max current bg /\
  0 <= shift_channel current bg a <= 255 /\
  Z.min 255 (shift_channel current bg a) = shift_channel current bg a.
Proof.
  unfold byte, shift_channel. intros Ha Hc Hb.
  assert (Hq : Z.min 0 (bg - current) <= ((bg - current) * a) `div` 255 <= Z.max 0 (bg - current)).
  { split.
    - apply Z.div_le_lower_bound; [lia|]. nia.
    - apply Z.div_le_upper_bound; [lia|]. nia. }
  lia.
Qed.

Lemma shift_channel_between_witness :
  Z.min 255 15 <= shift_channel 255 15 178 <= Z.max 255 15 /\
  0 <= shift_channel 255 15 178 <= 255 /\
  Z.min 255 (shift_channel 255 15 178) = shift_channel 255 15 178.
Proof. apply (shift_channel_between 255 15 178); unfold byte; lia. Defined.

(** ** The decorative line *)

(** C2, as stated, fails: the line is not below the subtitle. *)
Lemma accent_line_counterexample : ~ accent_beneath_subtitle.
Proof.
  unfold accent_beneath_subtitle, accent_rectangle, line_y, subtitle_y, title_y. lia.
Qed.

(** C2, amended: the decorative line occupies rows 190 to 193, above the
    row 210 at which the first subtitle string is anchored and below the
    rows 80 and 135 at which the two title strings are anchored; the
    rectangle step changes no pixel outside those rows. *)
Theorem accent_line_above_subtitle :
  accent_rectangle = ((40, 190), (280, 193)) /\
  title_y + 55 < line_y /\ line_y + 3 < subtitle_y /\
  forall img x y,
    getpixel (rectangle img accent_rectangle accent_color) (x, y) <> getpixel img (x, y) ->
    line_y <= y <= line_y + 3 /\ y < subtitle_y.
Proof.
  split; [reflexivity|]. split; [unfold line_y, subtitle_y, title_y; lia|].
  split; [unfold line_y, subtitle_y, title_y; lia|].
  intros img x y Hne. rewrite getpixel_rectangle in Hne.
  destruct (getpixel img (x, y)) as [old|e]; [|done].
  destruct (in_rectangle accent_rectangle x y) eqn:Hin; [|done].
  unfold in_rectangle, accent_rectangle in Hin.
  rewrite !andb_true_iff, !Z.leb_le in Hin.
  unfold line_y, subtitle_y, title_y in *. lia.
Qed.

(** ** The height of the resized chart *)

(** C3, as stated, fails: a 3x1 chart is resized to height
    [int(1 * (500 / 3)) = 166], while [round(166.67) = 167]. *)
Lemma sensor_height_counterexample : sensor_height 3 1 <> Ok (nearest_height 3 1).
Proof. vm_compute. discriminate. Qed.

(** C3, amended: for a chart of width [w] and height [h] (both positive and
    below [2^31]) the height of the resized chart is [h * (500 / w)]
    truncated, not rounded to nearest: it is [floor(500 * h / w)], or one
    less than that when [500 * h / w] is an integer that the two float
    roundings have missed from below. *)
Theorem sensor_height_truncates w h :
  1 <= w < 2 ^ 31 -> 1 <= h < 2 ^ 31 ->
  exists sh, sensor_height w h = Ok sh /\
    (sh = (sensor_width * h) `div` w \/
     sh = (sensor_width * h) `div` w - 1 /\ (sensor_width * h) `mod` w = 0).
Proof.
  intros Hw Hh. destruct (sensor_height_bounds w h Hw Hh) as (sh & Hsh & Hlo & Hhi).
  exists sh. split; [done|]. unfold sensor_width.
  destruct (Z.eq_dec (500 * h) (w * sh + w)) as [Heq|Hne].
  - right. replace (500 * h) with ((sh + 1) * w) by lia.
    rewrite Z.div_mul, Z.mod_mul by lia. lia.
  - left. apply Z.div_unique_pos with (500 * h - w * sh); lia.
Qed.

Lemma sensor_height_truncates_witness :
  exists sh, sensor_height 1000 600 = Ok sh /\
    (sh = (sensor_width * 600) `div` 1000 \/
     sh = (sensor_width * 600) `div` 1000 - 1 /\ (sensor_width * 600) `mod` 1000 = 0).
Proof. apply (sensor_height_truncates 1000 600); lia. Defined.

(** Three runs of the formula: the end-to-end scenario of the description,
    a fraction that is cut off, and a square chart whose exact height 500
    the roundings miss. *)
Example sensor_height_1000_600 : sensor_height 1000 600 = Ok 300.
Proof. vm_compute. reflexivity. Qed.

Example sensor_height_3_1 : sensor_height 3 1 = Ok 166.
Proof. vm_compute. reflexivity. Qed.

Example sensor_height_19_19 : sensor_height 19 19 = Ok 499.
Proof. vm_compute. reflexivity. Qed.

(** ** The paste *)

Lemma getpixel_blank_canvas x y :
  0 <= x < width -> 0 <= y < height -> getpixel blank_canvas (x, y) = Ok bg_color.
Proof. intros Hx Hy. apply getpixel_Image_new, in_bounds_spec. done. Qed.

Lemma blend_color_transparent old c : byte_color old -> blend_color 0 old c = old.
Proof.
  destruct old as [[r1 g1] b1], c as [[r2 g2] b2]. intros (Hr & Hg & Hb).
  unfold blend_color. by rewrite !BLEND_transparent.
Qed.

(** C4, as stated, fails: a chart in mode [LA] carries an alpha band, yet
    it is pasted without a mask, and the canvas pixel under its fully
    transparent pixel takes the chart's grey. *)
Lemma paste_mask_counterexample : ~ paste_keeps_under_transparent blank_canvas la_chart 1.
Proof.
  intros H. specialize (H 480 209 bg_color).
  rewrite getpixel_blank_canvas in H by (unfold width, height; lia).
  specialize (H eq_refl eq_refl).
  unfold paste_sensor in H. rewrite getpixel_paste in H.
  rewrite getpixel_blank_canvas in H by (unfold width, height; lia).
  vm_compute in H. discriminate.
Qed.

(** C4, amended: if the mode of the resized chart is exactly [RGBA], the
    paste is masked by its alpha band, and a canvas pixel (with 8-bit
    channels) under a fully transparent chart pixel keeps its colour; for
    every other mode, with or without an alpha band, the paste is not
    masked and every canvas pixel under a chart pixel takes the chart's
    colour. *)
Theorem paste_sensor_mask img sensor_img sh x y old :
  getpixel img (x, y) = Ok old -> byte_color old ->
  (mode sensor_img = "RGBA"%string ->
   transparent_at sensor_img (x - sensor_x) (y - sensor_y sh) ->
   getpixel (paste_sensor img sensor_img sh) (x, y) = Ok old) /\
  (mode sensor_img <> "RGBA"%string ->
   forall c, source_at sensor_img (im_rgb sensor_img) (x - sensor_x) (y - sensor_y sh) = Some c ->
   getpixel (paste_sensor img sensor_img sh) (x, y) = Ok c).
Proof.
  intros Hold Hbyte. unfold paste_sensor. rewrite getpixel_paste, Hold. unfold paste_pixel. split.
  - intros Hmode Htr. rewrite Hmode. cbn [String.eqb Ascii.eqb Bool.eqb].
    unfold transparent_at in Htr. rewrite Htr.
    destruct (source_at sensor_img (im_rgb sensor_img) _ _); [|done].
    by rewrite blend_color_transparent.
  - intros Hmode c Hc. rewrite Hc.
    destruct (String.eqb_spec (mode sensor_img) "RGBA"); done.
Qed.

Lemma paste_sensor_mask_witness :
  getpixel (paste_sensor blank_canvas rgba_chart 1) (480, 209) = Ok bg_color /\
  getpixel (paste_sensor blank_canvas la_chart 1) (480, 209) = Ok (200, 200, 200).
Proof.
  assert (Hold : getpixel blank_canvas (480, 209) = Ok bg_color)
    by (apply getpixel_blank_canvas; unfold width, height; lia).
  assert (Hbyte : byte_color bg_color) by (unfold byte_color, bg_color, byte; lia).
  split.
  - exact (proj1 (paste_sensor_mask blank_canvas rgba_chart 1 480 209 bg_color Hold Hbyte)
                 eq_refl eq_refl).
  - exact (proj2 (paste_sensor_mask blank_canvas la_chart 1 480 209 bg_color Hold Hbyte)
                 ltac:(discriminate) (200, 200, 200) eq_refl).
Defined.

(** ** The frame of the overlay *)

(** C8: on the canvas as the paste left it, the overlay loops run to the
    end, leave every pixel in the columns [x >= sensor_x] (the whole pasted
    chart among them) as it was, and change pixels only in the columns
    [0 <= x < sensor_x]. *)
Theorem gradient_overlay_frame sensor_img sh :
  exists img',
    gradient_overlay (paste_sensor blank_canvas sensor_img sh) = Ok img' /\
    (forall x y, sensor_x <= x ->
       getpixel img' (x, y) = getpixel (paste_sensor blank_canvas sensor_img sh) (x, y)) /\
    (forall x y,
       getpixel img' (x, y) <> getpixel (paste_sensor blank_canvas sensor_img sh) (x, y) ->
       0 <= x < sensor_x).
Proof.
  destruct (paste_sensor_canvas sensor_img sh) as (Hwf & Hw & Hh).
  fold blank_canvas in Hwf, Hw, Hh.
  set (img := paste_sensor blank_canvas sensor_img sh) in *.
  destruct (gradient_overlay_spec img Hwf) as (img' & Hrun & _ & Hw' & Hh' & Hpix).
  { rewrite Hw. unfold sensor_x, width, sensor_width. lia. }
  { rewrite Hh. lia. }
  assert (Hsame : forall x y, ~ (0 <= x < sensor_x) -> getpixel img' (x, y) = getpixel img (x, y)).
  { intros x y Hx. destruct (getpixel img (x, y)) as [c|e] eqn:Hc.
    - rewrite (Hpix x y c Hc). f_equal.
      apply getpixel_Ok_bounds, in_bounds_spec in Hc.
      by replace (x <? sensor_x) with false by (symmetry; apply Z.ltb_ge; lia).
    - unfold getpixel in *.
      replace (in_bounds img' x y) with (in_bounds img x y)
        by (unfold in_bounds; by rewrite Hw', Hh').
      destruct (in_bounds img x y) eqn:Hb; [|done].
      destruct (getpixel_total img x y Hwf Hb) as [c Hc']. unfold getpixel in Hc'.
      rewrite Hb in Hc'. congruence. }
  exists img'. split; [done|]. split.
  - intros x y Hx. apply Hsame. lia.
  - intros x y Hne. destruct (decide (0 <= x < sensor_x)) as [|Hx]; [done|].
    exfalso. exact (Hne (Hsame x y Hx)).
Qed.

(** ** Fonts, size and determinism of the whole script *)

Lemma bind_Ok {A B} (a : A) (k : A -> result B) : (x ← Ok a; k x) = k a.
Proof. reflexivity. Qed.

Lemma bind_Ok_inv {A B} (r : result A) (k : A -> result B) b :
  (x ← r; k x) = Ok b -> exists a, r = Ok a /\ k a = Ok b.
Proof. destruct r as [a|e]; [|done]. intros H. by exists a. Qed.

Section ScriptProperties.

Variable font : Type.
Variable load_default : font.
Variable draw_text : image -> Z * Z -> string -> color -> font -> image.
Variable resize : image -> Z * Z -> result image.

(** The two ways out of the [try] statement: three loaded fonts, or three
    times the default font; never an exception. *)
Lemma load_fonts_cases (truetype : string -> Z -> result font) v :
  (exists f1 f2 f3,
      truetype "arial.ttf"%string 48 = Ok f1 /\ truetype "arial.ttf"%string 28 = Ok f2 /\
      truetype "arial.ttf"%string 20 = Ok f3 /\
      load_fonts load_default truetype v = (FontVars (Some f1) (Some f2) (Some f3), None)) \/
  ((exists size e, In size [48; 28; 20] /\ truetype "arial.ttf"%string size = Raise e) /\
   load_fonts load_default truetype v =
     (FontVars (Some load_default) (Some load_default) (Some load_default), None)).
Proof.
  unfold load_fonts, try_fonts.
  destruct (truetype "arial.ttf"%string 48) as [f1|e1] eqn:H1.
  - destruct (truetype "arial.ttf"%string 28) as [f2|e2] eqn:H2.
    + destruct (truetype "arial.ttf"%string 20) as [f3|e3] eqn:H3.
      * left. exists f1, f2, f3. done.
      * right. split; [|done]. exists 20, e3. cbn. auto.
    + right. split; [|done]. exists 28, e2. cbn. auto.
  - right. split; [|done]. exists 48, e1. cbn. auto.
Qed.

(** C7: if the load of the named font fails at any of the three sizes,
    the [try] statement ends with all three font variables bound to the
    default font and with no exception left to propagate; a font loaded
    before the failure does not survive. *)
Theorem load_fonts_fallback (truetype : string -> Z -> result font) v size :
  In size [48; 28; 20] ->
  (exists e, truetype "arial.ttf"%string size = Raise e) ->
  load_fonts load_default truetype v =
    (FontVars (Some load_default) (Some load_default) (Some load_default), None).
Proof.
  intros Hsize [e He].
  destruct (load_fonts_cases truetype v) as [(f1 & f2 & f3 & H1 & H2 & H3 & _)|[_ H]]; [|done].
  cbn in Hsize. destruct Hsize as [<-|[<-|[<-|[]]]]; congruence.
Qed.

Hypothesis draw_text_size : forall img xy s c f,
  im_width (draw_text img xy s c f) = im_width img /\
  im_height (draw_text img xy s c f) = im_height img.

Lemma draw_labels_size img v out :
  draw_labels draw_text img v = Ok out ->
  im_width out = im_width img /\ im_height out = im_height img.
Proof.
  unfold draw_labels.
  destruct (title_font v) as [f1|]; [|done].
  destruct (subtitle_font v) as [f2|]; [|done].
  destruct (small_font v) as [f3|]; [|done].
  cbn. intros [= <-]. cbn [rectangle im_width im_height].
  repeat match goal with
         | |- context [im_width (draw_text ?i ?p ?s ?c ?f)] =>
             rewrite (proj1 (draw_text_size i p s c f)), (proj2 (draw_text_size i p s c f))
         end.
  done.
Qed.

Lemma draw_labels_total img f1 f2 f3 :
  exists out, draw_labels draw_text img (FontVars (Some f1) (Some f2) (Some f3)) = Ok out.
Proof. unfold draw_labels. cbn. eauto. Qed.

(** The script after the [resize]: paste, overlay, fonts and drawing. *)
Lemma generate_hero_unfold (truetype : string -> Z -> result font) sensor_img :
  generate_hero load_default draw_text resize truetype sensor_img =
    (sh ← sensor_height (im_width sensor_img) (im_height sensor_img);
     r ← resize sensor_img (sensor_width, sh);
     img ← gradient_overlay (paste_sensor blank_canvas r sh);
     match load_fonts load_default truetype (FontVars None None None) with
     | (_, Some e) => Raise e
     | (v, None) => draw_labels draw_text img v
     end).
Proof. reflexivity. Qed.

Lemma overlay_total r sh :
  exists img', gradient_overlay (paste_sensor blank_canvas r sh) = Ok img' /\
               im_width img' = width /\ im_height img' = height.
Proof.
  destruct (paste_sensor_canvas r sh) as (Hwf & Hw & Hh).
  fold blank_canvas in Hwf, Hw, Hh.
  destruct (gradient_overlay_spec _ Hwf) as (img' & Hrun & _ & Hw' & Hh' & _).
  { rewrite Hw. unfold sensor_x, width, sensor_width. lia. }
  { rewrite Hh. lia. }
  exists img'. split; [exact Hrun|]. split; congruence.
Qed.

Lemma generate_hero_saved_size (truetype : string -> Z -> result font) sensor_img out :
      generate_hero load_default draw_text resize truetype sensor_img = Ok out ->
      im_width out = width /\ im_height out = height.
Proof.
  rewrite generate_hero_unfold.
  intros (sh & _ & H)%bind_Ok_inv.
  apply bind_Ok_inv in H as (r & _ & H).
  apply bind_Ok_inv in H as (img & Himg & H).
  destruct (overlay_total r sh) as (img' & Hrun & Hw & Hh).
  assert (img = img') as -> by congruence.
  destruct (load_fonts_cases truetype (FontVars None None None))
    as [(f1 & f2 & f3 & _ & _ & _ & Hl)|[_ Hl]]; rewrite Hl in H;
    apply draw_labels_size in H as [Ho1 Ho2]; split; congruence.
Qed.

Lemma generate_hero_total (truetype : string -> Z -> result font) sensor_img :
  (1 <= im_width sensor_img < 2 ^ 31 -> 1 <= im_height sensor_img < 2 ^ 31 ->
   (forall sh, sensor_height (im_width sensor_img) (im_height sensor_img) = Ok sh ->
               exists r, resize sensor_img (sensor_width, sh) = Ok r) ->
   exists out, generate_hero load_default draw_text resize truetype sensor_img = Ok out).
Proof.
  intros Hw Hh Hres. rewrite generate_hero_unfold.
  destruct (sensor_height_bounds _ _ Hw Hh) as (sh & Hsh & _).
  destruct (Hres sh Hsh) as [r Hr]. rewrite Hsh, bind_Ok, Hr, bind_Ok.
  destruct (overlay_total r sh) as (img' & -> & _). rewrite bind_Ok.
  destruct (load_fonts_cases truetype (FontVars None None None))
    as [(f1 & f2 & f3 & _ & _ & _ & ->)|[_ ->]]; apply draw_labels_total.
Qed.

(** C5: whatever the chart, a raster that reaches [img.save] is 1000
    wide and 420 high; and the script does reach [img.save] for every
    chart with sides from 1 to below [2^31] that the library agrees to
    resize. *)
Theorem generate_hero_size (truetype : string -> Z -> result font) sensor_img :
  (forall out,
      generate_hero load_default draw_text resize truetype sensor_img = Ok out ->
      im_width out = width /\ im_height out = height) /\
  (1 <= im_width sensor_img < 2 ^ 31 -> 1 <= im_height sensor_img < 2 ^ 31 ->
   (forall sh, sensor_height (im_width sensor_img) (im_height sensor_img) = Ok sh ->
               exists r, resize sensor_img (sensor_width, sh) = Ok r) ->
   exists out, generate_hero load_default draw_text resize truetype sensor_img = Ok out).
Proof.
  split.
  - intros out. apply generate_hero_saved_size.
  - apply generate_hero_total.
Qed.

End ScriptProperties.

Lemma load_fonts_fallback_witness :
  load_fonts "default"%string fonts_but_20 (FontVars None None None) =
    (FontVars (Some "default"%string) (Some "default"%string) (Some "default"%string), None).
Proof.
  apply (load_fonts_fallback string "default"%string fonts_but_20 (FontVars None None None) 20).
  - right. right. left. reflexivity.
  - exists OSError. reflexivity.
Defined.

Lemma generate_hero_size_witness :
  (forall out,
      generate_hero "default"%string no_text flat_resize no_fonts white_chart = Ok out ->
      im_width out = width /\ im_height out = height) /\
  exists out, generate_hero "default"%string no_text flat_resize no_fonts white_chart = Ok out.
Proof.
  assert (Hdraw : forall img xy s c (f : string),
             im_width (no_text img xy s c f) = im_width img /\
             im_height (no_text img xy s c f) = im_height img)
    by (intros; split; reflexivity).
  pose proof (generate_hero_size string "default"%string no_text flat_resize Hdraw
                no_fonts white_chart) as [Hsize Htotal].
  split; [exact Hsize|]. apply Htotal.
  - simpl. lia.
  - simpl. lia.
  - intros sh _. eexists. reflexivity.
Defined.


(** * Further properties of the script *)

(** ** The overlay on an arbitrary canvas *)

Lemma shift_channel_same c a : shift_channel c c a = c.
Proof. unfold shift_channel. rewrite Z.sub_diag, Z.mul_0_l, Z.div_0_l by lia. lia. Qed.

Lemma overlay_pixel_bg a : overlay_pixel a bg_color = bg_color.
Proof. unfold overlay_pixel, bg_color. rewrite !shift_channel_same. reflexivity. Qed.

Lemma putpixel_same img x y c : getpixel img (x, y) = Ok c -> putpixel img (x, y) c = Ok img.
Proof.
  unfold getpixel, putpixel. destruct (in_bounds img x y); [|done].
  destruct (im_rgb img !! offset img x y) as [c'|] eqn:Hl; [|done].
  intros [= ->]. rewrite list_insert_id by done. by destruct img.
Qed.

Lemma overlay_column_identity x a img :
  (forall y, 0 <= y < height -> getpixel img (x, y) = Ok bg_color) ->
  overlay_column x a img = Ok img.
Proof.
  intros Hbg. unfold overlay_column, range.
  destruct (for_in_seqZ (fun _ s => s = img)
              (fun y img => current ← getpixel img (x, y); putpixel img (x, y) (overlay_pixel a current))
              height 0 img) as (img' & Hrun & ->); [done|done| |exact Hrun].
  intros i s Hi ->. exists img. split; [|done].
  rewrite (Hbg i) by lia. rewrite bind_Ok, overlay_pixel_bg.
  apply putpixel_same, Hbg. lia.
Qed.

Lemma gradient_overlay_identity img :
  (forall x y, 0 <= x < sensor_x -> 0 <= y < height -> getpixel img (x, y) = Ok bg_color) ->
  gradient_overlay img = Ok img.
Proof.
  intros Hbg. unfold gradient_overlay, range.
  destruct (for_in_seqZ (fun _ s => s = img)
              (fun x img => a ← alpha x; overlay_column x a img)
              sensor_x 0 img) as (img' & Hrun & ->); [done|done| |exact Hrun].
  intros i s Hi ->. exists img. split; [|done].
  rewrite alpha_closed_form, bind_Ok by lia.
  apply overlay_column_identity. intros y Hy. apply Hbg; lia.
Qed.

Lemma getpixel_pasted_outside r sh x y :
  0 <= x < width -> 0 <= y < height ->
  ~ (sensor_x <= x < sensor_x + im_width r /\ sensor_y sh <= y < sensor_y sh + im_height r) ->
  getpixel (paste_sensor blank_canvas r sh) (x, y) = Ok bg_color.
Proof.
  intros Hx Hy Hout. unfold paste_sensor. rewrite getpixel_paste, getpixel_blank_canvas by done.
  unfold paste_pixel, source_at.
  destruct (in_bounds r (x - sensor_x) (y - sensor_y sh)) eqn:Hb; [|done].
  apply in_bounds_spec in Hb. lia.
Qed.

(** X1: on the canvas as the paste leaves it the overlay loops change
    nothing at all: the paste only writes columns [x >= sensor_x], so every
    pixel the loops read is the background colour, and blending the
    background colour with itself gives it back whatever [alpha] is. *)
Theorem gradient_overlay_changes_nothing sensor_img sh :
  gradient_overlay (paste_sensor blank_canvas sensor_img sh) =
    Ok (paste_sensor blank_canvas sensor_img sh).
Proof.
  apply gradient_overlay_identity. intros x y Hx Hy.
  apply getpixel_pasted_outside; unfold sensor_x, width, sensor_width in *; lia.
Qed.

Lemma for_in_app {A S} (l1 l2 : list A) (body : A -> S -> result S) s :
  for_in (l1 ++ l2) body s = (s' ← for_in l1 body s; for_in l2 body s').
Proof.
  revert s. induction l1 as [|a l1 IH]; intros s; [done|].
  cbn [app for_in]. destruct (body a s) as [s1|e]; [|done].
  rewrite !bind_Ok. apply IH.
Qed.

(** A loop whose body first fails at index [k] fails with that exception. *)
Lemma for_in_seqZ_raise {S} (P : Z -> S -> Prop) (body : Z -> S -> result S) n k e s :
  0 <= k < n -> P 0 s ->
  (forall i s, 0 <= i < k -> P i s -> exists s', body i s = Ok s' /\ P (i + 1) s') ->
  (forall s, P k s -> body k s = Raise e) ->
  for_in (seqZ 0 n) body s = Raise e.
Proof.
  intros Hk HP Hpre Hfail.
  replace n with (k + (n - k)) by lia. rewrite seqZ_app by lia. rewrite for_in_app.
  destruct (for_in_seqZ P body k 0 s) as (s' & -> & HP'); [lia|done| |].
  { intros i s0 Hi. apply Hpre. lia. }
  rewrite bind_Ok, Z.add_0_l in *. rewrite seqZ_cons by lia. cbn [for_in].
  by rewrite (Hfail s' HP').
Qed.

Lemma overlay_column_raises x a img :
  wf_image img -> 0 <= x ->
  ~ (x < im_width img /\ height <= im_height img) ->
  overlay_column x a img = Raise IndexError.
Proof.
  intros Hwf Hx Hsmall. unfold overlay_column, range.
  set (k := if decide (x < im_width img) then im_height img else 0).
  assert (Hk : 0 <= k < height).
  { unfold k. destruct Hwf as (? & ? & _). case_decide; unfold height in *; lia. }
  apply (for_in_seqZ_raise
           (fun _ s => wf_image s /\ im_width s = im_width img /\ im_height s = im_height img)
           _ height k); [done|done| |].
  - intros i s Hi (Hwfs & Hws & Hhs).
    assert (Hb : in_bounds s x i = true).
    { apply in_bounds_spec. unfold k in Hi. case_decide; lia. }
    destruct (getpixel_total s x i Hwfs Hb) as [c ->]. rewrite bind_Ok.
    destruct (putpixel_spec s x i (overlay_pixel a c) Hwfs Hb) as (s' & -> & Hwf' & Hw' & Hh' & _).
    exists s'. split; [done|]. split; [done|]. split; congruence.
  - intros s (Hwfs & Hws & Hhs).
    rewrite getpixel_out; [done|].
    destruct (in_bounds s x k) eqn:Hb; [|done]. apply in_bounds_spec in Hb.
    unfold k in Hb. case_decide; lia.
Qed.

(** X3: on a well-formed image narrower than [sensor_x] or lower than
    [height] the loops run into the edge and raise [IndexError]. *)
Theorem gradient_overlay_small_canvas img :
  wf_image img ->
  im_width img < sensor_x \/ im_height img < height ->
  gradient_overlay img = Raise IndexError.
Proof.
  intros Hwf Hsmall. unfold gradient_overlay, range.
  set (k := if decide (im_height img < height) then 0 else im_width img).
  assert (Hk : 0 <= k < sensor_x).
  { unfold k. destruct Hwf as (? & ? & _). case_decide; unfold sensor_x, width, sensor_width in *; lia. }
  apply (for_in_seqZ_raise
           (fun _ s => wf_image s /\ im_width s = im_width img /\ im_height s = im_height img)
           _ sensor_x k); [done|done| |].
  - intros i s Hi (Hwfs & Hws & Hhs).
    rewrite alpha_closed_form, bind_Ok by lia.
    assert (Hin : 0 <= i < im_width s /\ height <= im_height s)
      by (unfold k in Hi; case_decide; lia).
    destruct (overlay_column_spec i (alpha_floor i) s Hwfs (proj1 Hin) (proj2 Hin))
      as (s' & -> & Hwf' & Hw' & Hh' & _).
    exists s'. split; [done|]. split; [done|]. split; congruence.
  - intros s (Hwfs & Hws & Hhs).
    rewrite alpha_closed_form, bind_Ok by lia.
    apply overlay_column_raises; [done|lia|].
    unfold k. case_decide; lia.
Qed.

Lemma gradient_overlay_small_canvas_witness :
  gradient_overlay (Image_new 100 420 bg_color) = Raise IndexError.
Proof.
  apply gradient_overlay_small_canvas.
  - apply wf_Image_new; lia.
  - left. unfold sensor_x, width, sensor_width. simpl. lia.
Defined.

(** X2: on any well-formed image at least [sensor_x] wide and [height]
    high the loops end without an exception and keep the size; each pixel
    of the region [x < sensor_x], [y < height] is blended exactly once,
    with the [alpha] of its column, and every other pixel is untouched. *)
Theorem gradient_overlay_any_canvas img :
  wf_image img -> sensor_x <= im_width img -> height <= im_height img ->
  exists img',
    gradient_overlay img = Ok img' /\
    wf_image img' /\ im_width img' = im_width img /\ im_height img' = im_height img /\
    forall x y c,
      getpixel img (x, y) = Ok c ->
      getpixel img' (x, y) =
        Ok (if (x <? sensor_x) && (y <? height) then overlay_pixel (alpha_floor x) c else c).
Proof. apply gradient_overlay_spec. Qed.

Lemma gradient_overlay_any_canvas_witness :
  exists img',
    gradient_overlay (Image_new 1000 500 (255, 255, 255)) = Ok img' /\
    wf_image img' /\
    im_width img' = im_width (Image_new 1000 500 (255, 255, 255)) /\
    im_height img' = im_height (Image_new 1000 500 (255, 255, 255)) /\
    forall x y c,
      getpixel (Image_new 1000 500 (255, 255, 255)) (x, y) = Ok c ->
      getpixel img' (x, y) =
        Ok (if (x <? sensor_x) && (y <? height) then overlay_pixel (alpha_floor x) c else c).
Proof.
  apply gradient_overlay_any_canvas.
  - apply wf_Image_new; lia.
  - unfold sensor_x, width, sensor_width. simpl. lia.
  - unfold height. simpl. lia.
Defined.

(** ** Where the chart lands *)

(** X4: a resized chart of width 500 is pasted into columns 480 to 979
    and the rows from [sensor_y]; the 480 columns on its left, the 20
    columns on its right and the rows above and below it keep the
    background colour. *)
Theorem paste_sensor_region sensor_img sh x y :
  im_width sensor_img = sensor_width ->
  0 <= x < width -> 0 <= y < height ->
  x < 480 \/ 980 <= x \/ y < sensor_y sh \/ sensor_y sh + im_height sensor_img <= y ->
  getpixel (paste_sensor blank_canvas sensor_img sh) (x, y) = Ok bg_color.
Proof.
  intros Hw Hx Hy Hout. apply getpixel_pasted_outside; [done|done|].
  rewrite Hw. unfold sensor_x, width, sensor_width. lia.
Qed.

Lemma paste_sensor_region_witness :
  getpixel (paste_sensor blank_canvas rgba_chart 1) (990, 209) = Ok bg_color.
Proof.
  apply paste_sensor_region.
  - reflexivity.
  - unfold width. lia.
  - unfold height. lia.
  - right. left. lia.
Defined.

(** X5: [sensor_y] centres the chart vertically: the margin below it is
    the margin above it or one row more, and the upper margin is negative
    (the chart is cut at the top) exactly when the chart is higher than the
    canvas. *)
Theorem sensor_y_centres sh :
  0 <= (height - (sensor_y sh + sh)) - sensor_y sh <= 1 /\
  (0 <= sensor_y sh <-> sh <= height).
Proof.
  unfold sensor_y, height.
  pose proof (Z.div_mod (420 - sh) 2 ltac:(lia)).
  pose proof (Z.mod_pos_bound (420 - sh) 2 ltac:(lia)). lia.
Qed.

(** X6: the computed height is never negative; it is 0 for a chart more
    than 500 times as wide as high, and at least 1 whenever
    [500 * h > w]. *)
Theorem sensor_height_degenerate w h :
  1 <= w < 2 ^ 31 -> 1 <= h < 2 ^ 31 ->
  exists sh, sensor_height w h = Ok sh /\ 0 <= sh /\
    (sensor_width * h < w -> sh = 0) /\
    (w < sensor_width * h -> 1 <= sh).
Proof.
  intros Hw Hh. destruct (sensor_height_bounds w h Hw Hh) as (sh & Hsh & Hlo & Hhi).
  exists sh. split; [done|]. unfold sensor_width. repeat split; nia.
Qed.

Lemma sensor_height_degenerate_witness :
  exists sh, sensor_height 1000 1 = Ok sh /\ 0 <= sh /\
    (sensor_width * 1 < 1000 -> sh = 0) /\
    (1000 < sensor_width * 1 -> 1 <= sh).
Proof. apply sensor_height_degenerate; lia. Defined.

(** X7: a chart with [h / w <= 420 / 500] is pasted whole, between the
    rows 0 and 420 and with the 20 columns of margin on the right; a chart
    with [500 * h >= 422 * w] gets a negative [sensor_y] and is cut. *)
Theorem chart_fits_canvas w h :
  1 <= w < 2 ^ 31 -> 1 <= h < 2 ^ 31 ->
  exists sh, sensor_height w h = Ok sh /\
    (sensor_width * h <= height * w ->
     0 <= sensor_y sh /\ sensor_y sh + sh <= height /\
     sensor_x + sensor_width + 20 = width) /\
    ((height + 2) * w <= sensor_width * h -> sensor_y sh < 0).
Proof.
  intros Hw Hh. destruct (sensor_height_bounds w h Hw Hh) as (sh & Hsh & Hlo & Hhi).
  exists sh. split; [done|]. unfold sensor_y, sensor_x, sensor_width, width, height.
  pose proof (Z.div_mod (420 - sh) 2 ltac:(lia)).
  pose proof (Z.mod_pos_bound (420 - sh) 2 ltac:(lia)).
  split.
  - intros Hfit. assert (sh <= 420) by nia. assert (0 <= sh) by nia. lia.
  - intros Htall. assert (421 <= sh) by nia. lia.
Qed.

Lemma chart_fits_canvas_witness :
  exists sh, sensor_height 1000 600 = Ok sh /\
    (sensor_width * 600 <= height * 1000 ->
     0 <= sensor_y sh /\ sensor_y sh + sh <= height /\
     sensor_x + sensor_width + 20 = width) /\
    ((height + 2) * 1000 <= sensor_width * 600 -> sensor_y sh < 0).
Proof. apply chart_fits_canvas; lia. Defined.

(** ** The masked paste *)

Lemma DIV255_mono a b : a <= b -> DIV255 a <= DIV255 b.
Proof.
  intros Hab. unfold DIV255. rewrite !Z.shiftr_div_pow2 by lia.
  apply Z.div_le_mono; [lia|].
  assert ((a + 128) `div` 2 ^ 8 <= (b + 128) `div` 2 ^ 8) by (apply Z.div_le_mono; lia).
  lia.
Qed.

Lemma BLEND_between a d s :
  0 <= a <= 255 -> byte d -> byte s ->
  Z.min d s <= BLEND a d s <= Z.max d s.
Proof.
  unfold byte. intros Ha Hd Hs. unfold BLEND.
  rewrite <- (DIV255_255 (Z.min d s)), <- (DIV255_255 (Z.max d s)) by lia.
  split; apply DIV255_mono; nia.
Qed.

(** X9: under a chart in mode [RGBA] a canvas pixel becomes, channel by
    channel, a value between its old one and the chart's, still 8-bit; it
    is exactly the chart's colour where the chart is fully opaque. *)
Theorem paste_sensor_rgba img sensor_img sh x y old c a :
  mode sensor_img = "RGBA"%string ->
  getpixel img (x, y) = Ok old -> byte_color old ->
  source_at sensor_img (im_rgb sensor_img) (x - sensor_x) (y - sensor_y sh) = Some c ->
  byte_color c ->
  source_at sensor_img (im_alpha sensor_img) (x - sensor_x) (y - sensor_y sh) = Some a ->
  0 <= a <= 255 ->
  exists new,
    getpixel (paste_sensor img sensor_img sh) (x, y) = Ok new /\
    byte_color new /\
    (a = 255 -> new = c) /\
    (let '(o0, o1, o2) := old in
     let '(c0, c1, c2) := c in
     let '(n0, n1, n2) := new in
     Z.min o0 c0 <= n0 <= Z.max o0 c0 /\
     Z.min o1 c1 <= n1 <= Z.max o1 c1 /\
     Z.min o2 c2 <= n2 <= Z.max o2 c2).
Proof.
  intros Hmode Hold Hbo Hc Hbc Ha Har.
  unfold paste_sensor. rewrite getpixel_paste, Hold, Hmode.
  cbn [String.eqb Ascii.eqb Bool.eqb]. unfold paste_pixel. rewrite Hc, Ha.
  eexists; split; [reflexivity|].
  destruct old as [[o0 o1] o2], c as [[c0 c1] c2]. cbn [blend_color].
  destruct Hbo as (Ho0 & Ho1 & Ho2), Hbc as (Hc0 & Hc1 & Hc2).
  pose proof (BLEND_between a o0 c0 Har Ho0 Hc0).
  pose proof (BLEND_between a o1 c1 Har Ho1 Hc1).
  pose proof (BLEND_between a o2 c2 Har Ho2 Hc2).
  unfold byte_color, byte in *. split; [lia|]. split; [|lia].
  intros ->. by rewrite !BLEND_opaque.
Qed.

Lemma paste_sensor_rgba_witness :
  exists new,
    getpixel (paste_sensor blank_canvas opaque_chart 1) (480, 209) = Ok new /\
    byte_color new /\
    (255 = 255 -> new = (200, 200, 200)) /\
    (let '(o0, o1, o2) := bg_color in
     let '(c0, c1, c2) := (200, 200, 200) in
     let '(n0, n1, n2) := new in
     Z.min o0 c0 <= n0 <= Z.max o0 c0 /\
     Z.min o1 c1 <= n1 <= Z.max o1 c1 /\
     Z.min o2 c2 <= n2 <= Z.max o2 c2).
Proof.
  apply (paste_sensor_rgba blank_canvas opaque_chart 1 480 209 bg_color (200, 200, 200) 255).
  - reflexivity.
  - apply getpixel_blank_canvas; unfold width, height; lia.
  - unfold byte_color, bg_color, byte. lia.
  - reflexivity.
  - unfold byte_color, byte. lia.
  - reflexivity.
  - lia.
Defined.

(** ** The steps of the weight *)

(** X14: from one column to the next [alpha] stays or drops by one. *)
Theorem alpha_steps x :
  0 <= x -> x + 1 < sensor_x ->
  exists a a', alpha x = Ok a /\ alpha (x + 1) = Ok a' /\ 0 <= a - a' <= 1.
Proof.
  intros Hx Hx'. exists (alpha_floor x), (alpha_floor (x + 1)).
  rewrite !alpha_closed_form by lia. split; [done|]. split; [done|].
  unfold alpha_floor, sensor_x, width, sensor_width in *.
  pose proof (Z.div_mod (255 * (10 * (1000 - 500 - 20) - 3 * x)) (10 * (1000 - 500 - 20)) ltac:(lia)).
  pose proof (Z.mod_pos_bound (255 * (10 * (1000 - 500 - 20) - 3 * x)) (10 * (1000 - 500 - 20)) ltac:(lia)).
  pose proof (Z.div_mod (255 * (10 * (1000 - 500 - 20) - 3 * (x + 1))) (10 * (1000 - 500 - 20)) ltac:(lia)).
  pose proof (Z.mod_pos_bound (255 * (10 * (1000 - 500 - 20) - 3 * (x + 1))) (10 * (1000 - 500 - 20)) ltac:(lia)).
  lia.
Qed.

Lemma alpha_steps_witness :
  exists a a', alpha 478 = Ok a /\ alpha (478 + 1) = Ok a' /\ 0 <= a - a' <= 1.
Proof. apply alpha_steps; unfold sensor_x, width, sensor_width; lia. Defined.

(** ** One channel of the blend *)

(** X12: the blend leaves a channel at most the fraction
    [(255 - alpha) / 255] of its distance to the background channel, up to
    one unit of rounding. *)
Theorem shift_channel_contracts current bg a :
  0 <= a <= 255 ->
  255 * Z.abs (shift_channel current bg a - bg) <= (255 - a) * Z.abs (current - bg) + 254.
Proof.
  intros Ha. unfold shift_channel.
  pose proof (Z.div_mod ((bg - current) * a) 255 ltac:(lia)) as Hdm.
  pose proof (Z.mod_pos_bound ((bg - current) * a) 255 ltac:(lia)) as Hr.
  set (q := ((bg - current) * a) `div` 255) in *.
  set (r := ((bg - current) * a) `mod` 255) in *.
  assert (H : 255 * (current + q - bg) = (255 - a) * (current - bg) - r) by lia.
  destruct (Z.le_ge_cases current bg), (Z.le_ge_cases (current + q) bg); nia.
Qed.

Lemma shift_channel_contracts_witness :
  255 * Z.abs (shift_channel 255 15 178 - 15) <= (255 - 178) * Z.abs (255 - 15) + 254.
Proof. apply shift_channel_contracts. lia. Defined.

(** ** The fonts and the drawing *)

Section MoreScriptProperties.

Variable font : Type.
Variable load_default : font.
Variable draw_text : image -> Z * Z -> string -> color -> font -> image.
Variable resize : image -> Z * Z -> result image.

(** X10: whatever the loader does and whatever was bound before, the
    [try] statement leaves no exception and binds all three variables: to
    the fonts loaded at 48, 28 and 20 points when the three loads succeed,
    and all three to the default font when one of them fails. *)
Theorem load_fonts_binds_all (truetype : string -> Z -> result font) v :
  (exists f1 f2 f3,
      load_fonts load_default truetype v = (FontVars (Some f1) (Some f2) (Some f3), None)) /\
  (forall f1 f2 f3,
      truetype "arial.ttf"%string 48 = Ok f1 -> truetype "arial.ttf"%string 28 = Ok f2 ->
      truetype "arial.ttf"%string 20 = Ok f3 ->
      load_fonts load_default truetype v = (FontVars (Some f1) (Some f2) (Some f3), None)) /\
  ((exists size e, In size [48; 28; 20] /\ truetype "arial.ttf"%string size = Raise e) ->
   load_fonts load_default truetype v =
     (FontVars (Some load_default) (Some load_default) (Some load_default), None)).
Proof.
  destruct (load_fonts_cases font load_default truetype v)
    as [(f1 & f2 & f3 & H1 & H2 & H3 & Hl)|[(size & e & Hsize & He) Hl]].
  - split; [by exists f1, f2, f3|]. split.
    + intros g1 g2 g3 G1 G2 G3. rewrite Hl. congruence.
    + intros (size & e & Hsize & He).
      cbn in Hsize. destruct Hsize as [<-|[<-|[<-|[]]]]; congruence.
  - split; [by exists load_default, load_default, load_default|]. split.
    + intros g1 g2 g3 G1 G2 G3.
      cbn in Hsize. destruct Hsize as [<-|[<-|[<-|[]]]]; congruence.
    + intros _. exact Hl.
Qed.

Hypothesis draw_text_wf : forall img xy s c f,
  wf_image img ->
  wf_image (draw_text img xy s c f) /\
  im_width (draw_text img xy s c f) = im_width img /\
  im_height (draw_text img xy s c f) = im_height img.

Lemma draw_labels_last img v out :
  wf_image img ->
  draw_labels draw_text img v = Ok out ->
  exists img', out = rectangle img' accent_rectangle accent_color /\
               wf_image img' /\ im_width img' = im_width img /\ im_height img' = im_height img.
Proof.
  intros Hwf. unfold draw_labels.
  destruct (title_font v) as [f1|]; [|done].
  destruct (subtitle_font v) as [f2|]; [|done].
  destruct (small_font v) as [f3|]; [|done].
  cbn. intros [= <-]. eexists; split; [reflexivity|].
  repeat match goal with
         | |- context [draw_text ?i ?p ?s ?c ?f] =>
             lazymatch i with
             | context [draw_text] => fail
             | _ =>
                 let H := fresh "H" in
                 let i' := fresh "img" in
                 destruct (draw_text_wf i p s c f ltac:(assumption)) as (H & ? & ?);
                 set (i' := draw_text i p s c f) in *; clearbody i'
             end
         end.
  split; [assumption|]. split; congruence.
Qed.

(** X11: if drawing text keeps an image well formed and of the same
    size, every raster the script saves has the accent colour on the whole
    decorative line, columns 40 to 280 of rows [line_y] to [line_y + 3]:
    it is drawn last, over whatever the text left there. *)
Theorem accent_bar_in_output (truetype : string -> Z -> result font) sensor_img out x y :
  generate_hero load_default draw_text resize truetype sensor_img = Ok out ->
  40 <= x <= 280 -> line_y <= y <= line_y + 3 ->
  getpixel out (x, y) = Ok accent_color.
Proof.
  rewrite generate_hero_unfold.
  intros (sh & _ & H)%bind_Ok_inv Hx Hy.
  apply bind_Ok_inv in H as (r & _ & H).
  apply bind_Ok_inv in H as (img & Himg & H).
  destruct (paste_sensor_canvas r sh) as (Hwf & Hw & Hh).
  fold blank_canvas in Hwf, Hw, Hh.
  destruct (gradient_overlay_spec _ Hwf) as (img' & Hrun & Hwf' & Hw' & Hh' & _).
  { rewrite Hw. unfold sensor_x, width, sensor_width. lia. }
  { rewrite Hh. lia. }
  assert (img = img') as -> by congruence.
  assert (Hlab : exists v, draw_labels draw_text img' v = Ok out).
  { destruct (load_fonts_cases font load_default truetype (FontVars None None None))
      as [(f1 & f2 & f3 & _ & _ & _ & Hl)|[_ Hl]]; rewrite Hl in H; cbv beta iota in H;
      eexists; exact H. }
  destruct Hlab as [v Hlab].
  destruct (draw_labels_last img' v out Hwf' Hlab) as (img5 & -> & Hwf5 & Hw5 & Hh5).
  rewrite getpixel_rectangle.
  assert (Hb : in_bounds img5 x y = true).
  { apply in_bounds_spec. rewrite Hw5, Hh5, Hw', Hh', Hw, Hh.
    unfold width, height, line_y, subtitle_y, title_y in *. lia. }
  destruct (getpixel_total img5 x y Hwf5 Hb) as [c ->].
  replace (in_rectangle accent_rectangle x y) with true; [done|].
  symmetry. unfold in_rectangle, accent_rectangle.
  rewrite !andb_true_iff, !Z.leb_le. lia.
Qed.

End MoreScriptProperties.

Example load_fonts_sized :
  load_fonts 0 sized_fonts (FontVars None None None) =
    (FontVars (Some 48) (Some 28) (Some 20), None).
Proof. reflexivity. Qed.

Lemma accent_bar_in_output_witness :
  exists out,
    generate_hero "default"%string no_text flat_resize no_fonts white_chart = Ok out /\
    getpixel out (40, 190) = Ok accent_color.
Proof.
  assert (Hwf : forall img xy s c (f : string),
             wf_image img ->
             wf_image (no_text img xy s c f) /\
             im_width (no_text img xy s c f) = im_width img /\
             im_height (no_text img xy s c f) = im_height img)
    by (intros img xy s c f H; split; [exact H|split; reflexivity]).
  destruct (generate_hero_total string "default"%string no_text flat_resize
              no_fonts white_chart) as [out Hout].
  - simpl. lia.
  - simpl. lia.
  - intros sh _. eexists. reflexivity.
  - exists out. split; [exact Hout|].
    apply (accent_bar_in_output string "default"%string no_text flat_resize Hwf
             no_fonts white_chart out 40 190 Hout).
    + lia.
    + unfold line_y, subtitle_y, title_y. lia.
Defined.

(** * Two runs on the same inputs *)


Section RunProperties.

Variable font : Type.
Variable load_default : font.




Variable draws : image -> Z * Z -> string -> color -> font -> image -> Prop.
Variable resizes : image -> Z * Z -> result image -> Prop.


End RunProperties.


(** What the script hands to [img.save] for the white chart, given the
    text drawing of the library. *)
Lemma white_chart_result
    (draw_text : image -> Z * Z -> string -> color -> string -> image) :
  exists r,
    generate_hero "default"%string draw_text flat_resize no_fonts white_chart =
      draw_labels draw_text (paste_sensor blank_canvas r 300)
        (FontVars (Some "default"%string) (Some "default"%string) (Some "default"%string)).
Proof.
  destruct (flat_resize white_chart (sensor_width, 300)) as [r|e] eqn:Hr; [|discriminate Hr].
  exists r. rewrite generate_hero_unfold.
  change (im_width white_chart) with 1000. change (im_height white_chart) with 600.
  rewrite sensor_height_1000_600, bind_Ok, Hr, bind_Ok.
  rewrite gradient_overlay_identity; [rewrite bind_Ok; reflexivity|].
  intros x y Hx Hy.
  apply getpixel_pasted_outside; unfold sensor_x, width, sensor_width in *; lia.
Qed.

(** Without the assumption on the library the conclusion of C9 fails: if
    drawing text may leave any image of the same size, two runs on the same
    chart with the same fonts can save different rasters. *)
Lemma run_follows_library :
  exists out1 out2,
    run "default"%string draws_anything resizes_flat no_fonts white_chart out1 /\
    run "default"%string draws_anything resizes_flat no_fonts white_chart out2 /\
    out1 <> out2.
Proof.
  exists (generate_hero "default"%string no_text flat_resize no_fonts white_chart),
         (generate_hero "default"%string ink_text flat_resize no_fonts white_chart).
  split; [|split].
  - exists no_text, flat_resize. split; [|split]; [|reflexivity|reflexivity].
    intros img xy s c f. split; reflexivity.
  - exists ink_text, flat_resize. split; [|split]; [|reflexivity|reflexivity].
    intros img xy s c f. split; reflexivity.
  - destruct (white_chart_result no_text) as [r ->].
    destruct (white_chart_result ink_text) as [r' ->].
    unfold draw_labels. cbn [read_var title_font subtitle_font small_font].
    rewrite !bind_Ok. unfold no_text, ink_text. intros Heq.
    apply (f_equal (fun out => img ← out; getpixel img (0, 0))) in Heq.
    rewrite !bind_Ok, !getpixel_rectangle in Heq.
    rewrite !getpixel_pasted_outside in Heq
      by (unfold sensor_x, width, sensor_width, height; lia).
    discriminate Heq.
Qed.
